(** * IPv4 Fragmentation Visualizer: the fragmentation engine

    A shallow embedding of the engine of [ipv4_fragmentation_visualizer.py]:

    - [IPv4Fragmenter.fragment_packet] and
      [IPv4Fragmenter.validate_fragmentation_inputs] (pure functions that
      either return or raise a [ValueError]);
    - [IPv4FragmentationApp.simulate_fragmentation], the multi-hop loop,
      which mutates the application object ([current_results], the
      visualisation area, the export button) and catches the exceptions of
      the two functions above;
    - the row data of [IPv4FragmentationApp.create_hop_table].

    Python integers are unbounded, so every [int] is a [Z]; [//] and [%]
    with a positive right operand are [Z.div] and [Z.modulo] (both round
    towards minus infinity).  Logging calls and the purely graphical part
    of the widgets are left out. *)

From Stdlib Require Import ZArith List String Bool Lia DecimalString.
Import ListNotations.
Local Open Scope Z_scope.

(** [lia] with [/] and [mod] by a constant. *)
Ltac Zify.zify_post_hook ::= Z.to_euclidean_division_equations.

(** ** Configuration *)

(** The validation limits of the [AppConfig] dataclass. *)
Record AppConfig : Type := mkAppConfig {
  min_packet_size : Z;
  max_packet_size : Z;
  min_header_size : Z;
  max_header_size : Z;
  min_mtu : Z;
  max_mtu : Z;
  max_fragment_offset : Z
}.

(** [AppConfig()]: the field defaults of the dataclass. *)
Definition AppConfig_default : AppConfig :=
  {| min_packet_size := 20;
     max_packet_size := 65535;
     min_header_size := 20;
     max_header_size := 60;
     min_mtu := 68;
     max_mtu := 65535;
     max_fragment_offset := 8191 |}.

(** ** Exceptions *)

(** One constructor per [raise ValueError(...)] site, carrying the values
    that the message interpolates. *)
Inductive ValueError : Type :=
  (* fragment_packet *)
  | DataSizeNegative
  | NoDataToFragment
  | MtuTooSmall (mtu header_size : Z)
  | OffsetOverflow (fragment_offset current_offset : Z)
  (* validate_fragmentation_inputs *)
  | PacketSizeBelowMinimum (bound : Z)
  | PacketSizeAboveMaximum (bound : Z)
  | HeaderSizeBelowMinimum (bound : Z)
  | HeaderSizeAboveMaximum (bound : Z)
  | HeaderSizeNotMultipleOf4
  | PacketNotGreaterThanHeader
  | PacketHeaderOnly
  | MtuPathEmpty
  | MtuBelowMinimum (hop mtu bound : Z)
  | MtuAboveMaximum (hop mtu bound : Z)
  | MtuTooSmallAtHop (hop mtu header_size : Z)
  (* validate_inputs: what [int] raises on a text that is no integer, the
     blank MTU entry, and the re-raised, prefixed error *)
  | InvalidLiteral (text : string)
  | MtuEntryBlank
  | InputValidationError (e : ValueError).

(** [str(n)] for an integer. *)
Definition str (n : Z) : string := NilZero.string_of_int (Z.to_int n).

Definition newline : string := String (Ascii.ascii_of_nat 10) EmptyString.

(** [str(e)]: the text of each diagnostic. *)
Fixpoint message (e : ValueError) : string :=
  match e with
  | DataSizeNegative => "Data size cannot be negative"
  | NoDataToFragment => "No data to fragment"
  | MtuTooSmall mtu header_size =>
      "MTU " ++ str mtu ++ " too small for header " ++ str header_size
        ++ " + minimum data (8)"
  | OffsetOverflow fragment_offset current_offset =>
      "Fragment offset " ++ str fragment_offset ++ " exceeds maximum (8191). "
        ++ "Packet too large for fragmentation at offset "
        ++ str current_offset ++ " bytes."
  | PacketSizeBelowMinimum bound =>
      "Packet size must be at least " ++ str bound ++ " bytes"
  | PacketSizeAboveMaximum bound =>
      "Packet size cannot exceed " ++ str bound ++ " bytes"
  | HeaderSizeBelowMinimum bound =>
      "Header size must be at least " ++ str bound ++ " bytes (RFC 791)"
  | HeaderSizeAboveMaximum bound =>
      "Header size cannot exceed " ++ str bound ++ " bytes (RFC 791)"
  | HeaderSizeNotMultipleOf4 =>
      "Header size must be a multiple of 4 bytes (RFC 791)"
  | PacketNotGreaterThanHeader =>
      "Packet size must be greater than header size"
  | PacketHeaderOnly => "Packet contains no data (header only)"
  | MtuPathEmpty => "MTU path cannot be empty"
  | MtuBelowMinimum hop mtu bound =>
      "MTU at hop " ++ str hop ++ " (" ++ str mtu ++ " bytes) is below minimum "
        ++ "(" ++ str bound ++ " bytes per RFC 791)"
  | MtuAboveMaximum hop mtu bound =>
      "MTU at hop " ++ str hop ++ " (" ++ str mtu ++ " bytes) exceeds maximum ("
        ++ str bound ++ " bytes)"
  | MtuTooSmallAtHop hop mtu header_size =>
      "MTU at hop " ++ str hop ++ " (" ++ str mtu ++ " bytes) too small for "
        ++ "header (" ++ str header_size ++ " bytes) + minimum data (8 bytes)"
  | InvalidLiteral text => text
  | MtuEntryBlank => "MTU path cannot be empty"
  | InputValidationError e' =>
      "Input Validation Error:" ++ newline ++ newline ++ message e'
  end.

(** The exceptions that reach the handlers of [simulate_fragmentation]. *)
Inductive exn : Type :=
  | ValueError_ (e : ValueError)
  | TypeError_ (msg : string).

Definition exn_str (e : exn) : string :=
  match e with
  | ValueError_ v => message v
  | TypeError_ msg => msg
  end.

(** What running a piece of code gives: a value, an exception, or, for the
    [while] loop of [fragment_packet], an exhausted iteration budget. *)
Inductive outcome (A : Type) : Type :=
  | Ok (a : A)
  | Raise (e : exn)
  | OutOfFuel.

Arguments Ok {A} a.
Arguments Raise {A} e.
Arguments OutOfFuel {A}.

Definition raise_ValueError {A : Type} (e : ValueError) : outcome A :=
  Raise (ValueError_ e).

(** ** Fragments *)

(** The tuple [(fragment_id, data_length, fragment_offset, sequence_num)]. *)
Record Fragment : Type := mkFragment {
  frag_id : Z;
  data_len : Z;
  offset : Z;       (* in 8-byte units *)
  seq_num : Z
}.

(** ** [IPv4Fragmenter.fragment_packet] *)

(** The [while remaining_data > 0] loop.  [fuel] bounds the number of
    iterations; [fragment_packet_terminates] shows that the budget given
    by [fragment_packet] is never exhausted. *)
Fixpoint fragment_loop (fuel : nat) (fragment_id max_data : Z)
    (fragments : list Fragment) (current_offset seq remaining_data : Z)
    : outcome (list Fragment) :=
  if remaining_data >? 0 then
    match fuel with
    | O => OutOfFuel
    | S fuel' =>
        let frag_data := Z.min remaining_data max_data in
        let frag_data :=
          if remaining_data >? max_data then (frag_data / 8) * 8
          else frag_data in
        let fragment_offset := current_offset / 8 in
        if fragment_offset >? 8191 then
          raise_ValueError (OffsetOverflow fragment_offset current_offset)
        else
          fragment_loop fuel' fragment_id max_data
            (fragments ++ [mkFragment fragment_id frag_data fragment_offset seq])
            (current_offset + frag_data) (seq + 1)
            (remaining_data - frag_data)
    end
  else Ok fragments.

Definition fragment_packet (data_size offset header_size mtu fragment_id : Z)
    : outcome (list Fragment) :=
  if data_size <? 0 then raise_ValueError DataSizeNegative
  else if data_size =? 0 then raise_ValueError NoDataToFragment
  else if mtu <? header_size + 8 then
    raise_ValueError (MtuTooSmall mtu header_size)
  else
    let max_data := mtu - header_size in
    let max_data := (max_data / 8) * 8 in
    fragment_loop (Z.to_nat data_size) fragment_id max_data
      [] offset 1 data_size.

(** ** [IPv4Fragmenter.validate_fragmentation_inputs] *)

(** The [for i, mtu in enumerate(mtu_path)] loop; [i] is the index of the
    head of [mtu_path]. *)
Fixpoint validate_mtu_path (config : AppConfig) (header_size i : Z)
    (mtu_path : list Z) : outcome unit :=
  match mtu_path with
  | [] => Ok tt
  | mtu :: rest =>
      if mtu <? min_mtu config then
        raise_ValueError (MtuBelowMinimum (i + 1) mtu (min_mtu config))
      else if mtu >? max_mtu config then
        raise_ValueError (MtuAboveMaximum (i + 1) mtu (max_mtu config))
      else if mtu <? header_size + 8 then
        raise_ValueError (MtuTooSmallAtHop (i + 1) mtu header_size)
      else validate_mtu_path config header_size (i + 1) rest
  end.

Definition validate_fragmentation_inputs (packet_size header_size : Z)
    (mtu_path : list Z) : outcome unit :=
  let config := AppConfig_default in
  if packet_size <? min_packet_size config then
    raise_ValueError (PacketSizeBelowMinimum (min_packet_size config))
  else if packet_size >? max_packet_size config then
    raise_ValueError (PacketSizeAboveMaximum (max_packet_size config))
  else if header_size <? min_header_size config then
    raise_ValueError (HeaderSizeBelowMinimum (min_header_size config))
  else if header_size >? max_header_size config then
    raise_ValueError (HeaderSizeAboveMaximum (max_header_size config))
  else if negb (header_size mod 4 =? 0) then
    raise_ValueError HeaderSizeNotMultipleOf4
  else
    let data_size := packet_size - header_size in
    if data_size <? 0 then raise_ValueError PacketNotGreaterThanHeader
    else if data_size =? 0 then raise_ValueError PacketHeaderOnly
    else
      match mtu_path with
      | [] => raise_ValueError MtuPathEmpty
      | _ => validate_mtu_path config header_size 0 mtu_path
      end.

(** ** The application object *)

(** One entry of [current_results['hops']]. *)
Record HopData : Type := mkHopData {
  hop_num : Z;
  hop_mtu : Z;
  hop_fragments : list Fragment
}.

(** The dictionary stored in [self.current_results]. *)
Record Results : Type := mkResults {
  res_fragment_id : Z;
  original_packet_size : Z;
  res_header_size : Z;
  res_mtu_path : list Z;
  hops : list HopData;
  timestamp : string
}.

(** The cells of one data row of a hop table, before formatting:
    [#seq], fragment id, total size, data size, offset in bytes, offset
    in units and the More-Fragments flag. *)
Record Row : Type := mkRow {
  row_seq : Z;
  row_frag_id : Z;
  row_total_size : Z;
  row_data_size : Z;
  row_offset_bytes : Z;
  row_offset_units : Z;
  row_mf_flag : bool
}.

(** The children of the scrollable visualisation frame. *)
Inductive Widget : Type :=
  | WelcomeMessage
  | HopTable (hop mtu : Z) (count : nat) (rows : list Row)
  | Footer.

(** [messagebox.showerror(title, text)]. *)
Record Dialog : Type := mkDialog {
  dialog_title : string;
  dialog_text : string
}.

(** The part of [IPv4FragmentationApp] that a simulation reads or writes. *)
Record App : Type := mkApp {
  current_results : option Results;
  viz_scroll : list Widget;
  export_btn_normal : bool;
  dialogs : list Dialog
}.

(** The two readings of [datetime.now()] made by a simulation. *)
Record Clock : Type := mkClock {
  now_ms : Z;            (* int(datetime.now().timestamp() * 1000) *)
  now_iso : string       (* datetime.now().isoformat() *)
}.

(** ** Methods as state transformers

    A method runs on the application object and returns a value, raises,
    or runs out of budget; what it wrote to the object before raising
    stays written, as in Python. *)
Definition M (A : Type) : Type := App -> outcome A * App.

Definition ret {A : Type} (a : A) : M A := fun st => (Ok a, st).

Definition bind {A B : Type} (m : M A) (k : A -> M B) : M B :=
  fun st =>
    match m st with
    | (Ok a, st') => k a st'
    | (Raise e, st') => (Raise e, st')
    | (OutOfFuel, st') => (OutOfFuel, st')
    end.

Definition lift {A : Type} (o : outcome A) : M A := fun st => (o, st).

Definition modify (f : App -> App) : M unit := fun st => (Ok tt, f st).

(** [try: body except ...: handler]. *)
Definition try_except {A : Type} (body : M A) (handler : exn -> M A) : M A :=
  fun st =>
    match body st with
    | (Raise e, st') => handler e st'
    | r => r
    end.

Declare Scope app_scope.
Delimit Scope app_scope with app.
Notation "x <- m ;; k" := (bind m (fun x => k))
  (at level 61, m at next level, right associativity) : app_scope.
Notation "m ;; k" := (bind m (fun _ => k))
  (at level 61, right associativity) : app_scope.
Local Open Scope app_scope.

Definition set_current_results (r : Results) : M unit :=
  modify (fun st => mkApp (Some r) (viz_scroll st) (export_btn_normal st)
                          (dialogs st)).

(** [self.current_results['hops'].append(hop_data)]. *)
Definition append_hop (hop_data : HopData) : M unit :=
  fun st =>
    match current_results st with
    | Some r =>
        (Ok tt,
         mkApp (Some (mkResults (res_fragment_id r) (original_packet_size r)
                        (res_header_size r) (res_mtu_path r)
                        (hops r ++ [hop_data]) (timestamp r)))
               (viz_scroll st) (export_btn_normal st) (dialogs st))
    | None =>
        (Raise (TypeError_ "'NoneType' object is not subscriptable"), st)
    end.

Definition pack (w : Widget) : M unit :=
  modify (fun st => mkApp (current_results st) (viz_scroll st ++ [w])
                          (export_btn_normal st) (dialogs st)).

Definition clear_visualization_area : M unit :=
  modify (fun st => mkApp (current_results st) [] (export_btn_normal st)
                          (dialogs st)).

Definition export_btn_configure (normal : bool) : M unit :=
  modify (fun st => mkApp (current_results st) (viz_scroll st) normal
                          (dialogs st)).

Definition showerror (title text : string) : M unit :=
  modify (fun st => mkApp (current_results st) (viz_scroll st)
                          (export_btn_normal st)
                          (dialogs st ++ [mkDialog title text])).

Definition create_footer : M unit := pack Footer.

(** ** [IPv4FragmentationApp.create_hop_table] *)

(** The data rows: [for idx, (...) in enumerate(fragments)], with
    [mf_flag = idx < len(fragments) - 1]. *)
Fixpoint hop_table_rows (header_size len idx : Z) (fragments : list Fragment)
    : list Row :=
  match fragments with
  | [] => []
  | f :: rest =>
      let mf_flag := idx <? len - 1 in
      mkRow (seq_num f) (frag_id f) (data_len f + header_size) (data_len f)
            (offset f * 8) (offset f) mf_flag
        :: hop_table_rows header_size len (idx + 1) rest
  end.

Definition create_hop_table (hop mtu : Z) (fragments : list Fragment)
    (header_size packet_id : Z) : M unit :=
  pack (HopTable hop mtu (List.length fragments)
          (hop_table_rows header_size (Z.of_nat (List.length fragments)) 0
             fragments)).

(** ** [IPv4FragmentationApp.validate_inputs]

    The method reads the three entries of the form.  What the built-in
    [int] makes of a text is taken as given: an entry comes as the integer
    that [int(text.strip())] returns, or as the text of the [ValueError]
    that it raises. *)
Inductive IntText : Type :=
  | IntOk (n : Z)
  | IntError (text : string).

(** The MTU entry after [strip()]: blank, or the pieces that
    [split(',')] gives, of which there is at least one. *)
Inductive MtuText : Type :=
  | MtuBlank
  | MtuItems (first : IntText) (rest : list IntText).

(** The entries [packet_size_entry], [header_size_entry] and
    [mtu_path_entry] when the method runs. *)
Record Entries : Type := mkEntries {
  packet_size_entry : IntText;
  header_size_entry : IntText;
  mtu_path_entry : MtuText
}.

(** [int(text.strip())]. *)
Definition int_ (t : IntText) : outcome Z :=
  match t with
  | IntOk n => Ok n
  | IntError text => raise_ValueError (InvalidLiteral text)
  end.

(** [[int(x.strip()) for x in mtu_input.split(',')]]: the pieces are read
    from the left and the first that is no integer raises. *)
Fixpoint ints (pieces : list IntText) : outcome (list Z) :=
  match pieces with
  | [] => Ok []
  | piece :: rest =>
      match int_ piece with
      | Ok n =>
          match ints rest with
          | Ok l => Ok (n :: l)
          | Raise e => Raise e
          | OutOfFuel => OutOfFuel
          end
      | Raise e => Raise e
      | OutOfFuel => OutOfFuel
      end
  end.

Definition validate_inputs (entries : Entries) : M (Z * Z * list Z) :=
  try_except
    (packet_size <- lift (int_ (packet_size_entry entries)) ;;
     header_size <- lift (int_ (header_size_entry entries)) ;;
     match mtu_path_entry entries with
     | MtuBlank => lift (raise_ValueError MtuEntryBlank)
     | MtuItems first rest =>
         mtu_path <- lift (ints (first :: rest)) ;;
         lift (validate_fragmentation_inputs packet_size header_size
                 mtu_path) ;;
         ret (packet_size, header_size, mtu_path)
     end)
    (fun e =>
       match e with
       | ValueError_ v => lift (raise_ValueError (InputValidationError v))
       | _ => lift (Raise e)
       end).

(** The entries that read as the given integers; no MTU at all is the
    blank entry. *)
Definition entries_of (packet_size header_size : Z) (mtu_path : list Z)
    : Entries :=
  mkEntries (IntOk packet_size) (IntOk header_size)
    match mtu_path with
    | [] => MtuBlank
    | mtu :: rest => MtuItems (IntOk mtu) (map IntOk rest)
    end.

(** ** [IPv4FragmentationApp.simulate_fragmentation] *)

(** [for idx, (fid, dlen, off, _) in enumerate(sub_fragments)]: each
    sub-fragment is appended with [len(new_fragments) + 1] as sequence
    number. *)
Definition renumber (new_fragments sub_fragments : list Fragment)
    : list Fragment :=
  fold_left
    (fun acc f =>
       let new_seq := Z.of_nat (List.length acc) + 1 in
       acc ++ [mkFragment (frag_id f) (data_len f) (offset f) new_seq])
    sub_fragments new_fragments.

(** [for frag_id, data_len, offset, seq_num in fragments], with the
    accumulator [new_fragments]. *)
Fixpoint hop_loop (header_size mtu : Z) (new_fragments fragments : list Fragment)
    : outcome (list Fragment) :=
  match fragments with
  | [] => Ok new_fragments
  | f :: rest =>
      if data_len f + header_size <=? mtu then
        hop_loop header_size mtu
          (new_fragments
             ++ [mkFragment (frag_id f) (data_len f) (offset f) (seq_num f)])
          rest
      else
        let offset_bytes := offset f * 8 in
        match fragment_packet (data_len f) offset_bytes header_size mtu
                (frag_id f) with
        | Ok sub_fragments =>
            hop_loop header_size mtu (renumber new_fragments sub_fragments) rest
        | Raise e => Raise e
        | OutOfFuel => OutOfFuel
        end
  end.

(** [for hop_idx, mtu in enumerate(mtu_path)]; the result is the final
    value of the variable [fragments]. *)
Fixpoint simulate_hops (header_size fragment_id : Z) (fragments : list Fragment)
    (hop_idx : Z) (mtu_path : list Z) : M (list Fragment) :=
  match mtu_path with
  | [] => ret fragments
  | mtu :: rest =>
      new_fragments <- lift (hop_loop header_size mtu [] fragments) ;;
      let fragments := new_fragments in
      append_hop (mkHopData (hop_idx + 1) mtu fragments) ;;
      create_hop_table (hop_idx + 1) mtu fragments header_size fragment_id ;;
      simulate_hops header_size fragment_id fragments (hop_idx + 1) rest
  end.

(** The [try] body after [validate_inputs] has returned. *)
Definition simulate_body (clock : Clock) (packet_size header_size : Z)
    (mtu_path : list Z) : M unit :=
  clear_visualization_area ;;
  let fragment_id := now_ms clock mod 65536 in
  set_current_results
    (mkResults fragment_id packet_size header_size mtu_path [] (now_iso clock)) ;;
  let data_size := packet_size - header_size in
  let fragments := [mkFragment fragment_id data_size 0 1] in
  _ <- simulate_hops header_size fragment_id fragments 0 mtu_path ;;
  export_btn_configure true ;;
  create_footer.

(** The two [except] clauses. *)
Definition simulate_handler (e : exn) : M unit :=
  match e with
  | ValueError_ v => showerror "Validation Error" (message v)
  | _ =>
      showerror "Simulation Error"
        ("An unexpected error occurred:" ++ newline ++ newline ++ exn_str e
           ++ newline ++ newline ++ "Check logs for details.")
  end.

Definition simulate_fragmentation (clock : Clock) (entries : Entries)
    : M unit :=
  try_except
    (inputs <- validate_inputs entries ;;
     let '(packet_size, header_size, mtu_path) := inputs in
     simulate_body clock packet_size header_size mtu_path)
    simulate_handler.

(** The application object after [__init__]. *)
Definition App_init : App := mkApp None [WelcomeMessage; Footer] false [].

Definition clock0 : Clock := mkClock 12345 "2026-01-16T00:00:00".

Definition hops_of (st : App) : list HopData :=
  match current_results st with
  | Some r => hops r
  | None => []
  end.

(** ** [IPv4FragmentationApp.refresh_ui] and [reset_inputs] *)

Definition show_welcome_message : M unit :=
  pack WelcomeMessage ;;
  create_footer.

(** [for hop in self.current_results['hops']: self.create_hop_table(...)]. *)
Fixpoint redraw_hops (r : Results) (hs : list HopData) : M unit :=
  match hs with
  | [] => ret tt
  | hop :: rest =>
      create_hop_table (hop_num hop) (hop_mtu hop) (hop_fragments hop)
        (res_header_size r) (res_fragment_id r) ;;
      redraw_hops r rest
  end.

(** Every widget is destroyed and built again: the visualisation frame
    comes back empty and the export button disabled; then the hops of
    [current_results], when there are results, are drawn again.  The
    entries keep their text. *)
Definition refresh_ui : M unit :=
  modify (fun st => mkApp (current_results st) [] false (dialogs st)) ;;
  fun st =>
    match current_results st with
    | Some r =>
        (clear_visualization_area ;;
         redraw_hops r (hops r) ;;
         create_footer ;;
         export_btn_configure true) st
    | None => show_welcome_message st
    end.

(** The entries go back to their defaults (they are inputs of
    [simulate_fragmentation] here), the results are dropped. *)
Definition reset_inputs : M unit :=
  clear_visualization_area ;;
  show_welcome_message ;;
  modify (fun st => mkApp None (viz_scroll st) (export_btn_normal st)
                          (dialogs st)) ;;
  export_btn_configure false.

(** ** [IPv4FragmentationApp.export_to_csv] *)

(** A cell handed to [writer.writerow]: a string or an integer. *)
Inductive Cell : Type :=
  | CStr (s : string)
  | CInt (n : Z).

(** [s * n]. *)
Fixpoint repeat_string (s : string) (n : nat) : string :=
  match n with
  | O => EmptyString
  | S n' => s ++ repeat_string s n'
  end.

(** [sep.join(l)]. *)
Fixpoint join (sep : string) (l : list string) : string :=
  match l with
  | [] => EmptyString
  | [x] => x
  | x :: rest => x ++ sep ++ join sep rest
  end.

(** The separator of the MTU path: a space, U+2192 in UTF-8, a space. *)
Definition arrow : string :=
  String (Ascii.ascii_of_nat 32)
    (String (Ascii.ascii_of_nat 226)
       (String (Ascii.ascii_of_nat 134)
          (String (Ascii.ascii_of_nat 146)
             (String (Ascii.ascii_of_nat 32) EmptyString)))).

(** The rows of the fragments of one hop:
    [for idx, (...) in enumerate(hop['fragments'])]. *)
Fixpoint csv_fragment_rows (header_size len idx : Z) (fragments : list Fragment)
    : list (list Cell) :=
  match fragments with
  | [] => []
  | f :: rest =>
      let mf_flag : string :=
        if idx <? len - 1 then "1 (More)"%string else "0 (Last)"%string in
      let total_size := data_len f + header_size in
      let offset_bytes := offset f * 8 in
      [CInt (seq_num f); CInt (frag_id f); CInt total_size; CInt (data_len f);
       CInt offset_bytes; CInt (offset f); CStr mf_flag]
        :: csv_fragment_rows header_size len (idx + 1) rest
  end.

(** The rows of one hop. *)
Definition csv_hop_rows (header_size : Z) (hop : HopData) : list (list Cell) :=
  [ [];
    [CStr ("Network Hop " ++ str (hop_num hop));
     CStr ("MTU: " ++ str (hop_mtu hop) ++ " bytes")];
    [CStr (repeat_string "-" 60)];
    [CStr "Seq"; CStr "Fragment ID (just example)"; CStr "Total Size (bytes)";
     CStr "Data Size (bytes)"; CStr "Offset (bytes)";
     CStr "Offset (8-byte units)"; CStr "MF Flag"] ]
  ++ csv_fragment_rows header_size
       (Z.of_nat (List.length (hop_fragments hop))) 0 (hop_fragments hop)
  ++ [ [] ].

(** The rows written before the summary. *)
Definition csv_head_rows (generated : string) (r : Results)
    : list (list Cell) :=
  [ [CStr "IPv4 Fragmentation Analysis Report"];
    [CStr (repeat_string "=" 60)];
    [];
    [CStr "Generated:"; CStr generated];
    [CStr "Application:"; CStr "IPv4 Fragmentation Visualizer v2.0"];
    [];
    [CStr "CONFIGURATION"];
    [CStr (repeat_string "-" 60)];
    [CStr "Fragment ID (just example):"; CInt (res_fragment_id r)];
    [CStr "Original Packet Size:";
     CStr (str (original_packet_size r) ++ " bytes")];
    [CStr "Header Size:"; CStr (str (res_header_size r) ++ " bytes")];
    [CStr "Data Size:";
     CStr (str (original_packet_size r - res_header_size r) ++ " bytes")];
    [CStr "MTU Path:"; CStr (join arrow (map str (res_mtu_path r)))];
    [CStr "Number of Hops:"; CInt (Z.of_nat (List.length (hops r)))];
    [];
    [CStr "FRAGMENTATION DETAILS"];
    [CStr (repeat_string "=" 60)] ]
  ++ flat_map (csv_hop_rows (res_header_size r)) (hops r)
  ++ [ [CStr "SUMMARY"];
       [CStr (repeat_string "=" 60)] ].

(** [sum(len(hop['fragments']) * header_size for hop in hops)]. *)
Definition total_overhead (r : Results) : Z :=
  fold_left
    (fun acc hop =>
       acc + Z.of_nat (List.length (hop_fragments hop)) * res_header_size r)
    (hops r) 0.

(** The rows written after [final_hop = hops[-1]] has been read. *)
Definition csv_summary_rows (r : Results) (final_hop : HopData)
    : list (list Cell) :=
  [ [CStr "Final Fragment Count:";
     CInt (Z.of_nat (List.length (hop_fragments final_hop)))];
    [CStr "Total Hops:"; CInt (Z.of_nat (List.length (hops r)))];
    [CStr "Total Header Overhead:"; CStr (str (total_overhead r) ++ " bytes")];
    [];
    [CStr "End of Report"] ].

(** [l[-1]]: the last element, or nothing for the empty list, where
    Python raises [IndexError]. *)
Fixpoint last_item {A : Type} (l : list A) : option A :=
  match l with
  | [] => None
  | [x] => Some x
  | _ :: rest => last_item rest
  end.

(** What [open(filename, 'w')] does. *)
Inductive OpenResult : Type :=
  | Opened
  | PermissionDenied
  | OpenFailed (text : string).

(** The ways [export_to_csv] ends, each with the dialog it shows and,
    where a file was opened, the rows in it. *)
Inductive ExportResult : Type :=
  | NoDataWarning (dialog : Dialog)
  | ExportCancelled
  | ExportSuccessful (filename : string) (rows : list (list Cell))
      (dialog : Dialog)
  | ExportPermissionError (dialog : Dialog)
  | ExportFailed (rows : option (list (list Cell))) (dialog : Dialog).

Definition export_failed_dialog (text : string) : Dialog :=
  mkDialog "Export Error"
    ("Failed to export data:" ++ newline ++ newline ++ text
       ++ newline ++ newline ++ "Check logs for details.").

(** [filename] is what the save dialog returned (empty when cancelled),
    [generated] the formatted time of the report. *)
Definition export_to_csv (filename generated : string) (opened : OpenResult)
    (st : App) : ExportResult :=
  match current_results st with
  | None =>
      NoDataWarning
        (mkDialog "No Data" "Please run a simulation first before exporting.")
  | Some r =>
      if (filename =? "")%string then ExportCancelled
      else
        match opened with
        | PermissionDenied =>
            ExportPermissionError
              (mkDialog "Export Error"
                 ("Permission denied. Cannot write to:" ++ newline ++ filename
                    ++ newline ++ newline
                    ++ "Please choose a different location."))
        | OpenFailed text => ExportFailed None (export_failed_dialog text)
        | Opened =>
            match last_item (hops r) with
            | None =>
                ExportFailed (Some (csv_head_rows generated r))
                  (export_failed_dialog "list index out of range")
            | Some final_hop =>
                ExportSuccessful filename
                  (csv_head_rows generated r ++ csv_summary_rows r final_hop)
                  (mkDialog "Export Successful"
                     ("Fragmentation data exported successfully!" ++ newline
                        ++ newline ++ "File: " ++ filename))
            end
        end
  end.

(** * Vocabulary of the properties *)

Definition sum_data (l : list Fragment) : Z :=
  fold_right (fun f acc => data_len f + acc) 0 l.

(** The fragments that the loop appends, as a relation: one chunk of
    [min remaining max_data] bytes per iteration, each below the offset
    limit, until nothing remains. *)
Fixpoint chunks (fragment_id max_data : Z)
    (current_offset seq remaining : Z) (l : list Fragment) : Prop :=
  match l with
  | [] => remaining <= 0
  | f :: tl =>
      0 < remaining
      /\ f = mkFragment fragment_id (Z.min remaining max_data)
               (current_offset / 8) seq
      /\ current_offset / 8 <= 8191
      /\ chunks fragment_id max_data
           (current_offset + Z.min remaining max_data) (seq + 1)
           (remaining - Z.min remaining max_data) tl
  end.

(** [chain s l e]: taken in order, the fragments of [l] cover the bytes
    [s, e) with no gap and no overlap; each starts at the byte its unit
    offset names and carries at least one byte. *)
Fixpoint chain (s : Z) (l : list Fragment) (e : Z) : Prop :=
  match l with
  | [] => s = e
  | f :: tl => offset f * 8 = s /\ 0 < data_len f /\ chain (s + data_len f) tl e
  end.

(** Whether a fragment passes a hop as it is. *)
Definition fits (header_size mtu : Z) (f : Fragment) : Prop :=
  data_len f + header_size <= mtu.

(** The sub-fragments with the sequence numbers [n + 1, n + 2, ...]. *)
Fixpoint reseq (n : nat) (sub : list Fragment) : list Fragment :=
  match sub with
  | [] => []
  | f :: tl =>
      mkFragment (frag_id f) (data_len f) (offset f) (Z.of_nat n + 1)
        :: reseq (S n) tl
  end.

(** What one fragment contributes to the next hop's list: itself when
    it fits, otherwise the renumbered result of [fragment_packet]. *)
Definition hop_part (header_size mtu : Z) (f : Fragment) (part : list Fragment)
    : Prop :=
  if data_len f + header_size <=? mtu then part = [f]
  else exists sub n,
      fragment_packet (data_len f) (offset f * 8) header_size mtu (frag_id f)
      = Ok sub
      /\ part = reseq n sub.

(** The fragment list of each hop that completes, in order, and how the
    loop over [mtu_path] ends. *)
Fixpoint hop_lists (header_size : Z) (fragments : list Fragment)
    (mtu_path : list Z) : list (list Fragment) * outcome (list Fragment) :=
  match mtu_path with
  | [] => ([], Ok fragments)
  | mtu :: rest =>
      match hop_loop header_size mtu [] fragments with
      | Ok new =>
          let (ls, o) := hop_lists header_size new rest in (new :: ls, o)
      | Raise e => ([], Raise e)
      | OutOfFuel => ([], OutOfFuel)
      end
  end.

(** The entries appended to [current_results['hops']] for these lists. *)
Fixpoint hop_records (hop_idx : Z) (mtu_path : list Z)
    (ls : list (list Fragment)) : list HopData :=
  match mtu_path, ls with
  | mtu :: rest, l :: ls' =>
      mkHopData (hop_idx + 1) mtu l :: hop_records (hop_idx + 1) rest ls'
  | _, _ => []
  end.

(** The tables packed into the visualisation area for these lists. *)
Fixpoint hop_tables (header_size hop_idx : Z) (mtu_path : list Z)
    (ls : list (list Fragment)) : list Widget :=
  match mtu_path, ls with
  | mtu :: rest, l :: ls' =>
      HopTable (hop_idx + 1) mtu (List.length l)
        (hop_table_rows header_size (Z.of_nat (List.length l)) 0 l)
        :: hop_tables header_size (hop_idx + 1) rest ls'
  | _, _ => []
  end.

Definition with_hops (r : Results) (hs : list HopData) : Results :=
  mkResults (res_fragment_id r) (original_packet_size r) (res_header_size r)
    (res_mtu_path r) hs (timestamp r).

(** The inputs that the specification accepts. *)
Definition valid_inputs (packet_size header_size : Z) (mtu_path : list Z)
    : Prop :=
  20 <= packet_size <= 65535
  /\ (20 <= header_size <= 60 /\ header_size mod 4 = 0)
  /\ packet_size - header_size > 0
  /\ mtu_path <> []
  /\ Forall (fun mtu => 68 <= mtu <= 65535 /\ mtu >= header_size + 8) mtu_path.

(** The rules of the validator contract, in the order the specification
    lists them; an MTU rule names the 1-indexed hop. *)
Inductive Rule : Type :=
  | PacketSizeRule
  | HeaderSizeRule
  | DataSizeRule
  | MtuPathRule
  | MtuRule (hop : Z).

(** The first hop, counted from [hop], whose MTU breaks the MTU rule. *)
Fixpoint first_bad_mtu (header_size hop : Z) (mtu_path : list Z)
    : option Rule :=
  match mtu_path with
  | [] => None
  | mtu :: rest =>
      if (68 <=? mtu) && (mtu <=? 65535) && (mtu >=? header_size + 8)
      then first_bad_mtu header_size (hop + 1) rest
      else Some (MtuRule hop)
  end.

(** The first violated rule, as the specification words the contract. *)
Definition first_violated (packet_size header_size : Z) (mtu_path : list Z)
    : option Rule :=
  if negb ((20 <=? packet_size) && (packet_size <=? 65535)) then
    Some PacketSizeRule
  else if negb ((20 <=? header_size) && (header_size <=? 60)
                && (header_size mod 4 =? 0)) then
    Some HeaderSizeRule
  else if negb (packet_size - header_size >? 0) then Some DataSizeRule
  else
    match mtu_path with
    | [] => Some MtuPathRule
    | _ => first_bad_mtu header_size 1 mtu_path
    end.

(** The rule that each diagnostic of the validator reports. *)
Definition reported_rule (e : ValueError) : option Rule :=
  match e with
  | PacketSizeBelowMinimum _ | PacketSizeAboveMaximum _ => Some PacketSizeRule
  | HeaderSizeBelowMinimum _ | HeaderSizeAboveMaximum _
  | HeaderSizeNotMultipleOf4 => Some HeaderSizeRule
  | PacketNotGreaterThanHeader | PacketHeaderOnly => Some DataSizeRule
  | MtuPathEmpty => Some MtuPathRule
  | MtuBelowMinimum hop _ _ | MtuAboveMaximum hop _ _
  | MtuTooSmallAtHop hop _ _ => Some (MtuRule hop)
  | _ => None
  end.

(** Running the validator agrees with a reading of the contract: it
    returns when no rule is violated and otherwise raises a diagnostic of
    the first violated rule. *)
Definition agrees (run : outcome unit) (violated : option Rule) : Prop :=
  match violated with
  | None => run = Ok tt
  | Some rule =>
      exists e, run = raise_ValueError e /\ reported_rule e = Some rule
  end.

(** [rejects entries e]: the form is refused with the diagnostic [e],
    for the first of these reasons, in the order in which the method reads
    and checks: the packet size entry is no integer; the header size entry
    is no integer; the MTU entry is blank; a piece of the MTU entry is no
    integer (the leftmost such piece); the validator raises [e], a
    diagnostic of the first rule that the integers read violate. *)
Inductive rejects : Entries -> ValueError -> Prop :=
  | rejects_packet_size (text : string) (header : IntText) (mtus : MtuText) :
      rejects (mkEntries (IntError text) header mtus) (InvalidLiteral text)
  | rejects_header_size (n : Z) (text : string) (mtus : MtuText) :
      rejects (mkEntries (IntOk n) (IntError text) mtus) (InvalidLiteral text)
  | rejects_blank (packet_size header_size : Z) :
      rejects (mkEntries (IntOk packet_size) (IntOk header_size) MtuBlank)
        MtuEntryBlank
  | rejects_piece (packet_size header_size : Z) (first : IntText)
      (rest : list IntText) (before : list Z) (text : string)
      (after : list IntText) :
      first :: rest = map IntOk before ++ IntError text :: after ->
      rejects
        (mkEntries (IntOk packet_size) (IntOk header_size)
           (MtuItems first rest))
        (InvalidLiteral text)
  | rejects_rule (packet_size header_size : Z) (mtu_path : list Z)
      (rule : Rule) (e : ValueError) :
      mtu_path <> [] ->
      first_violated packet_size header_size mtu_path = Some rule ->
      reported_rule e = Some rule ->
      validate_fragmentation_inputs packet_size header_size mtu_path
      = raise_ValueError e ->
      rejects (entries_of packet_size header_size mtu_path) e.

(** The forms that are accepted: every entry reads as an integer and
    the integers pass the validator. *)
Definition accepted (entries : Entries) : Prop :=
  exists packet_size header_size mtu_path,
    entries = entries_of packet_size header_size mtu_path
    /\ valid_inputs packet_size header_size mtu_path.

(** The list a simulation starts from: one fragment with the whole
    payload. *)
Definition initial_fragments (clock : Clock) (packet_size header_size : Z)
    : list Fragment :=
  [mkFragment (now_ms clock mod 65536) (packet_size - header_size) 0 1].

(** [simulate_fragmentation] from the point where [validate_inputs] has
    returned: the rest of the [try] body and the two handlers. *)
Definition simulate_validated (clock : Clock) (packet_size header_size : Z)
    (mtu_path : list Z) : M unit :=
  try_except (simulate_body clock packet_size header_size mtu_path)
    simulate_handler.

(** The results dictionary and the tables after the hops in [ls]. *)
Definition results_after (clock : Clock) (packet_size header_size : Z)
    (mtu_path : list Z) (ls : list (list Fragment)) : Results :=
  mkResults (now_ms clock mod 65536) packet_size header_size mtu_path
    (hop_records 0 mtu_path ls) (now_iso clock).

(** The invariant of the recorded lists. *)
Definition well_formed (data_size : Z) (l : list Fragment) : Prop :=
  chain 0 l data_size /\ Forall (fun f => offset f <= 8191) l.

(** The sequence numbers of a list never exceed the position (from 1)
    of the fragment that carries them. *)
Definition seq_bounded (l : list Fragment) : Prop :=
  forall i f, nth_error l i = Some f -> 1 <= seq_num f <= Z.of_nat i + 1.

(** The table that [create_hop_table] packs for a recorded hop. *)
Definition table_of (header_size : Z) (hop : HopData) : Widget :=
  HopTable (hop_num hop) (hop_mtu hop) (List.length (hop_fragments hop))
    (hop_table_rows header_size (Z.of_nat (List.length (hop_fragments hop))) 0
       (hop_fragments hop)).

(** The cells of the report for a row of a hop table. *)
Definition row_cells (row : Row) : list Cell :=
  [CInt (row_seq row); CInt (row_frag_id row); CInt (row_total_size row);
   CInt (row_data_size row); CInt (row_offset_bytes row);
   CInt (row_offset_units row);
   CStr (if row_mf_flag row then "1 (More)" else "0 (Last)")].

(** The number of fragments over all the hops of the results. *)
Definition fragments_recorded (r : Results) : Z :=
  Z.of_nat (List.length (List.concat (map hop_fragments (hops r)))).

(** The states that the application reaches from its start by
    simulating (with any entries, at any time), resetting and redrawing.
    Exporting, in this model, leaves the state as it is. *)
Inductive reachable : App -> Prop :=
  | reachable_init : reachable App_init
  | reachable_simulate (st : App) (clock : Clock) (entries : Entries) :
      reachable st ->
      reachable (snd (simulate_fragmentation clock entries st))
  | reachable_reset (st : App) :
      reachable st -> reachable (snd (reset_inputs st))
  | reachable_refresh (st : App) :
      reachable st -> reachable (snd (refresh_ui st)).

(** * Properties *)

(** ** Two runs from the documentation *)

Example fragment_packet_doc_input :
  fragment_packet 1480 0 20 576 12345
  = Ok [mkFragment 12345 552 0 1; mkFragment 12345 552 69 2;
        mkFragment 12345 376 138 3].
Proof. vm_compute. reflexivity. Qed.

Example message_overflow :
  message (OffsetOverflow 8192 65536)
  = "Fragment offset 8192 exceeds maximum (8191). Packet too large for fragmentation at offset 65536 bytes."%string.
Proof. vm_compute. reflexivity. Qed.

(** ** The [while] loop of [fragment_packet] *)

Lemma sum_data_app (a b : list Fragment) :
  sum_data (a ++ b) = sum_data a + sum_data b.
Proof. induction a as [|f a IH]; simpl; lia. Qed.

Section FragmentLoop.

Variables fragment_id max_data : Z.
Hypothesis max_data_pos : 0 < max_data.
Hypothesis max_data_aligned : (max_data / 8) * 8 = max_data.

Lemma frag_data_eq (remaining : Z) :
  (if remaining >? max_data
   then (Z.min remaining max_data / 8) * 8
   else Z.min remaining max_data) = Z.min remaining max_data.
Proof.
  destruct (Z.gtb_spec remaining max_data) as [H|H]; [|reflexivity].
  rewrite Z.min_r by lia. exact max_data_aligned.
Qed.

Lemma fragment_loop_unfold (fuel : nat) (acc : list Fragment)
    (current_offset seq remaining : Z) :
  fragment_loop (S fuel) fragment_id max_data acc current_offset seq remaining
  = if remaining >? 0 then
      if current_offset / 8 >? 8191 then
        raise_ValueError (OffsetOverflow (current_offset / 8) current_offset)
      else
        fragment_loop fuel fragment_id max_data
          (acc ++ [mkFragment fragment_id (Z.min remaining max_data)
                     (current_offset / 8) seq])
          (current_offset + Z.min remaining max_data) (seq + 1)
          (remaining - Z.min remaining max_data)
    else Ok acc.
Proof.
  cbn [fragment_loop]. rewrite frag_data_eq. reflexivity.
Qed.

Lemma fragment_loop_done (fuel : nat) (acc : list Fragment)
    (current_offset seq remaining : Z) :
  remaining <= 0 ->
  fragment_loop fuel fragment_id max_data acc current_offset seq remaining
  = Ok acc.
Proof.
  intros H. destruct fuel; cbn [fragment_loop];
    destruct (Z.gtb_spec remaining 0); (lia || reflexivity).
Qed.

(** A returned list is the accumulator followed by the chunks. *)
Lemma fragment_loop_ok (fuel : nat) :
  forall acc current_offset seq remaining frs,
    fragment_loop fuel fragment_id max_data acc current_offset seq remaining
    = Ok frs ->
    exists new,
      frs = acc ++ new
      /\ chunks fragment_id max_data current_offset seq remaining new.
Proof.
  induction fuel as [|fuel IH]; intros acc co sq rem frs Hrun.
  - cbn [fragment_loop] in Hrun.
    destruct (Z.gtb_spec rem 0); [discriminate|].
    injection Hrun as <-. exists []. rewrite app_nil_r. simpl.
    split; [reflexivity|lia].
  - rewrite fragment_loop_unfold in Hrun.
    destruct (Z.gtb_spec rem 0) as [Hrem|Hrem].
    + destruct (Z.gtb_spec (co / 8) 8191) as [Hov|Hov]; [discriminate|].
      apply IH in Hrun. destruct Hrun as [new [-> Hnew]].
      eexists (_ :: new). rewrite <- app_assoc. split; [reflexivity|].
      simpl. repeat split; (lia || assumption).
    + injection Hrun as <-. exists []. rewrite app_nil_r. simpl.
    split; [reflexivity|lia].
Qed.

(** The budget [Z.to_nat remaining] is enough: every iteration removes
    at least one byte. *)
Lemma fragment_loop_fuel (fuel : nat) :
  forall acc current_offset seq remaining,
    (Z.to_nat remaining <= fuel)%nat ->
    fragment_loop fuel fragment_id max_data acc current_offset seq remaining
    <> OutOfFuel.
Proof.
  induction fuel as [|fuel IH]; intros acc co sq rem Hfuel.
  - rewrite fragment_loop_done by lia. discriminate.
  - rewrite fragment_loop_unfold.
    destruct (Z.gtb_spec rem 0) as [Hrem|Hrem]; [|discriminate].
    destruct (Z.gtb_spec (co / 8) 8191) as [Hov|Hov]; [discriminate|].
    apply IH. lia.
Qed.

(** The loop raises exactly at the first chunk boundary
    [current_offset + k * max_data] whose unit offset exceeds 8191. *)
Lemma fragment_loop_raise (fuel : nat) :
  forall acc current_offset seq remaining e,
    fragment_loop fuel fragment_id max_data acc current_offset seq remaining
    = Raise e ->
    exists k, 0 <= k /\ k * max_data < remaining
              /\ (current_offset + k * max_data) / 8 > 8191
              /\ e = ValueError_
                       (OffsetOverflow ((current_offset + k * max_data) / 8)
                          (current_offset + k * max_data)).
Proof.
  induction fuel as [|fuel IH]; intros acc co sq rem e Hrun.
  - cbn [fragment_loop] in Hrun. destruct (rem >? 0); discriminate.
  - rewrite fragment_loop_unfold in Hrun.
    destruct (Z.gtb_spec rem 0) as [Hrem|Hrem]; [|discriminate].
    destruct (Z.gtb_spec (co / 8) 8191) as [Hov|Hov].
    + injection Hrun as <-. exists 0. rewrite Z.mul_0_l, Z.add_0_r.
      repeat split; lia.
    + apply IH in Hrun. destruct Hrun as [k [Hk [Hlt [Hgt ->]]]].
      assert (Hmin : Z.min rem max_data = max_data) by nia.
      rewrite Hmin in *.
      exists (k + 1).
      replace (co + (k + 1) * max_data) with (co + max_data + k * max_data)
        by ring.
      repeat split; (lia || nia).
Qed.

(** Conversely, a returned list means that no boundary overflows. *)
Lemma chunks_no_overflow (new : list Fragment) :
  forall current_offset seq remaining,
    chunks fragment_id max_data current_offset seq remaining new ->
    forall k, 0 <= k -> k * max_data < remaining ->
              (current_offset + k * max_data) / 8 <= 8191.
Proof.
  induction new as [|f tl IH]; simpl; intros co sq rem Hch k Hk Hlt.
  - nia.
  - destruct Hch as [Hrem [_ [Hov Htl]]].
    destruct (Z.eq_dec k 0) as [->|Hk0].
    + rewrite Z.mul_0_l, Z.add_0_r. exact Hov.
    + assert (Hmin : Z.min rem max_data = max_data) by nia.
      rewrite Hmin in Htl.
      replace (co + k * max_data) with (co + max_data + (k - 1) * max_data)
        by ring.
      apply (IH _ _ _ Htl); nia.
Qed.

End FragmentLoop.

(** ** Tiling *)

Lemma chain_app (a b : list Fragment) :
  forall s e, chain s (a ++ b) e <-> exists m, chain s a m /\ chain m b e.
Proof.
  induction a as [|f a IH]; simpl; intros s e.
  - split.
    + intros H. exists s. split; [reflexivity|exact H].
    + intros [m [-> H]]. exact H.
  - split.
    + intros [Hoff [Hpos Hrest]]. apply IH in Hrest.
      destruct Hrest as [m [Ha Hb]]. exists m. repeat split; assumption.
    + intros [m [[Hoff [Hpos Ha]] Hb]]. repeat split; try assumption.
      apply IH. exists m. split; assumption.
Qed.

Lemma chain_sum (l : list Fragment) :
  forall s e, chain s l e -> sum_data l = e - s.
Proof.
  induction l as [|f l IH]; simpl; intros s e H.
  - lia.
  - destruct H as [_ [_ H]]. apply IH in H. lia.
Qed.

Lemma chain_le (l : list Fragment) :
  forall s e, chain s l e -> s <= e.
Proof.
  induction l as [|f l IH]; simpl; intros s e H.
  - lia.
  - destruct H as [_ [Hpos H]]. apply IH in H. lia.
Qed.

(** Adjacent fragments of a chain: the next one starts where this one
    ends, at a strictly larger unit offset. *)
Lemma chain_adjacent (l : list Fragment) :
  forall s e i f g,
    chain s l e ->
    nth_error l i = Some f -> nth_error l (S i) = Some g ->
    offset g * 8 = offset f * 8 + data_len f /\ offset f < offset g.
Proof.
  induction l as [|x l IH]; intros s e i f g Hch Hf Hg.
  - destruct i; discriminate.
  - destruct Hch as [Hoff [Hpos Hrest]]. destruct i as [|i].
    + simpl in Hf. injection Hf as <-.
      destruct l as [|y l]; [discriminate|]. simpl in Hg. injection Hg as <-.
      destruct Hrest as [Hoffy _]. lia.
    + apply (IH _ _ i f g Hrest); assumption.
Qed.

(** Every fragment of a chain but the last carries a multiple of 8 bytes. *)
Lemma chain_aligned (l : list Fragment) (s e : Z) (i : nat) (f : Fragment) :
  chain s l e ->
  nth_error l i = Some f -> (S i < List.length l)%nat ->
  data_len f mod 8 = 0.
Proof.
  intros Hch Hf Hlt.
  destruct (nth_error l (S i)) as [g|] eqn:Hg.
  - destruct (chain_adjacent l s e i f g Hch Hf Hg) as [Heq _].
    replace (data_len f) with ((offset g - offset f) * 8) by lia.
    apply Z_mod_mult.
  - apply nth_error_None in Hg. lia.
Qed.

Lemma chain_positive (l : list Fragment) :
  forall s e, chain s l e -> Forall (fun f => 0 < data_len f) l.
Proof.
  induction l as [|f l IH]; simpl; intros s e H; constructor.
  - tauto.
  - destruct H as [_ [_ H]]. exact (IH _ _ H).
Qed.

Section Chunks.

Variables fragment_id max_data : Z.
Hypothesis max_data_pos : 0 < max_data.
Hypothesis max_data_aligned : (max_data / 8) * 8 = max_data.

Lemma chunks_sum (new : list Fragment) :
  forall current_offset seq remaining,
    chunks fragment_id max_data current_offset seq remaining new ->
    sum_data new = Z.max 0 remaining.
Proof.
  induction new as [|f tl IH]; simpl; intros co sq rem H.
  - lia.
  - destruct H as [Hrem [-> [_ Htl]]]. apply IH in Htl. simpl. lia.
Qed.

Lemma chunks_nonempty (new : list Fragment)
    (current_offset seq remaining : Z) :
  chunks fragment_id max_data current_offset seq remaining new ->
  0 < remaining -> new <> [].
Proof. destruct new; simpl; [lia|discriminate]. Qed.

Lemma chunks_offset_bound (new : list Fragment) :
  forall current_offset seq remaining,
    chunks fragment_id max_data current_offset seq remaining new ->
    Forall (fun f => offset f <= 8191) new.
Proof.
  induction new as [|f tl IH]; simpl; intros co sq rem H; constructor.
  - destruct H as [_ [-> [Hov _]]]. exact Hov.
  - destruct H as [_ [_ [_ Htl]]]. exact (IH _ _ _ Htl).
Qed.

Lemma chunks_frag_id (new : list Fragment) :
  forall current_offset seq remaining,
    chunks fragment_id max_data current_offset seq remaining new ->
    Forall (fun f => frag_id f = fragment_id) new.
Proof.
  induction new as [|f tl IH]; simpl; intros co sq rem H; constructor.
  - destruct H as [_ [-> _]]. reflexivity.
  - destruct H as [_ [_ [_ Htl]]]. exact (IH _ _ _ Htl).
Qed.

(** The sequence numbers count up from [seq]. *)
Lemma chunks_seq (new : list Fragment) :
  forall current_offset seq remaining i f,
    chunks fragment_id max_data current_offset seq remaining new ->
    nth_error new i = Some f -> seq_num f = seq + Z.of_nat i.
Proof.
  induction new as [|x tl IH]; intros co sq rem i f H Hf.
  - destruct i; discriminate.
  - destruct H as [_ [-> [_ Htl]]]. destruct i as [|i].
    + simpl in Hf. injection Hf as <-. simpl. lia.
    + simpl in Hf. rewrite (IH _ _ _ i f Htl Hf). lia.
Qed.

(** From an 8-byte aligned start, the chunks tile
    [current_offset, current_offset + remaining). *)
Lemma chunks_chain (new : list Fragment) :
  forall current_offset seq remaining,
    current_offset mod 8 = 0 -> 0 < remaining ->
    chunks fragment_id max_data current_offset seq remaining new ->
    chain current_offset new (current_offset + remaining).
Proof.
  induction new as [|f tl IH]; simpl; intros co sq rem Hal Hrem H.
  - lia.
  - destruct H as [_ [-> [_ Htl]]]. simpl.
    split; [lia|]. split; [lia|].
    destruct tl as [|g tl'].
    + simpl in Htl. simpl. lia.
    + assert (Hmore : 0 < rem - Z.min rem max_data)
        by (simpl in Htl; tauto).
      assert (Hmin : Z.min rem max_data = max_data) by lia.
      rewrite Hmin in *.
      replace (co + rem) with (co + max_data + (rem - max_data)) by ring.
      apply (IH _ (sq + 1)); try assumption. lia.
Qed.

(** From any start, unit offsets are the floor of the byte positions:
    the chunks tile the interval that begins at the start rounded down
    to a multiple of 8. *)
Lemma chunks_chain_floor (new : list Fragment) :
  forall current_offset seq remaining,
    0 < remaining ->
    chunks fragment_id max_data current_offset seq remaining new ->
    chain (current_offset / 8 * 8) new (current_offset / 8 * 8 + remaining).
Proof.
  induction new as [|f tl IH]; simpl; intros co sq rem Hrem H.
  - lia.
  - destruct H as [_ [-> [_ Htl]]]. simpl.
    split; [lia|]. split; [lia|].
    destruct tl as [|g tl'].
    + simpl in Htl. simpl. lia.
    + assert (Hmore : 0 < rem - Z.min rem max_data)
        by (simpl in Htl; tauto).
      assert (Hmin : Z.min rem max_data = max_data) by lia.
      rewrite Hmin in *.
      specialize (IH _ _ _ Hmore Htl).
      replace ((co + max_data) / 8 * 8) with (co / 8 * 8 + max_data) in IH
        by lia.
      replace (co / 8 * 8 + rem)
        with (co / 8 * 8 + max_data + (rem - max_data)) by ring.
      exact IH.
Qed.

End Chunks.

(** ** [fragment_packet] *)

Lemma max_data_bounds (header_size mtu : Z) :
  header_size + 8 <= mtu ->
  0 < (mtu - header_size) / 8 * 8
  /\ ((mtu - header_size) / 8 * 8) / 8 * 8 = (mtu - header_size) / 8 * 8.
Proof. intros H. split; lia. Qed.

(** Past the three guards the call is the loop. *)
Lemma fragment_packet_loop (data_size start header_size mtu fragment_id : Z) :
  0 < data_size -> header_size + 8 <= mtu ->
  fragment_packet data_size start header_size mtu fragment_id
  = fragment_loop (Z.to_nat data_size) fragment_id
      ((mtu - header_size) / 8 * 8) [] start 1 data_size.
Proof.
  intros Hds Hmtu. unfold fragment_packet.
  destruct (Z.ltb_spec data_size 0); [lia|].
  destruct (Z.eqb_spec data_size 0); [lia|].
  destruct (Z.ltb_spec mtu (header_size + 8)); [lia|].
  reflexivity.
Qed.

(** A call that does not stop at a guard has passed all three. *)
Lemma fragment_packet_guards (data_size start header_size mtu fragment_id : Z) :
  (data_size < 0
   /\ fragment_packet data_size start header_size mtu fragment_id
      = raise_ValueError DataSizeNegative)
  \/ (data_size = 0
      /\ fragment_packet data_size start header_size mtu fragment_id
         = raise_ValueError NoDataToFragment)
  \/ (0 < data_size /\ mtu < header_size + 8
      /\ fragment_packet data_size start header_size mtu fragment_id
         = raise_ValueError (MtuTooSmall mtu header_size))
  \/ (0 < data_size /\ header_size + 8 <= mtu).
Proof.
  unfold fragment_packet.
  destruct (Z.ltb_spec data_size 0); [left; split; [lia|reflexivity]|].
  destruct (Z.eqb_spec data_size 0);
    [right; left; split; [lia|reflexivity]|].
  destruct (Z.ltb_spec mtu (header_size + 8)).
  - right; right; left. repeat split; (lia || reflexivity).
  - right; right; right. lia.
Qed.

Lemma fragment_packet_ok (data_size start header_size mtu fragment_id : Z)
    (frs : list Fragment) :
  fragment_packet data_size start header_size mtu fragment_id = Ok frs ->
  0 < data_size /\ header_size + 8 <= mtu
  /\ chunks fragment_id ((mtu - header_size) / 8 * 8) start 1 data_size frs.
Proof.
  intros Hrun.
  destruct (fragment_packet_guards data_size start header_size mtu fragment_id)
    as [[_ H]|[[_ H]|[[_ [_ H]]|[Hds Hmtu]]]];
    try (rewrite H in Hrun; discriminate).
  rewrite fragment_packet_loop in Hrun by assumption.
  destruct (max_data_bounds _ _ Hmtu) as [Hpos Hal].
  apply (fragment_loop_ok _ _ Hal) in Hrun.
  destruct Hrun as [new [-> Hnew]]. simpl. tauto.
Qed.

(** The model of the [while] loop never runs out of budget: the call
    returns or raises. *)
Lemma fragment_packet_terminates
    (data_size start header_size mtu fragment_id : Z) :
  fragment_packet data_size start header_size mtu fragment_id <> OutOfFuel.
Proof.
  destruct (fragment_packet_guards data_size start header_size mtu fragment_id)
    as [[_ H]|[[_ H]|[[_ [_ H]]|[Hds Hmtu]]]];
    try (rewrite H; discriminate).
  rewrite fragment_packet_loop by assumption.
  destruct (max_data_bounds _ _ Hmtu) as [Hpos Hal].
  apply fragment_loop_fuel; [assumption|assumption|lia].
Qed.

(** ** One hop *)

Lemma renumber_reseq (sub : list Fragment) :
  forall new_fragments,
    renumber new_fragments sub
    = new_fragments ++ reseq (List.length new_fragments) sub.
Proof.
  unfold renumber.
  induction sub as [|f tl IH]; intros acc; simpl.
  - rewrite app_nil_r. reflexivity.
  - rewrite IH, <- app_assoc, length_app, Nat.add_1_r. reflexivity.
Qed.

Lemma reseq_length (sub : list Fragment) :
  forall n, List.length (reseq n sub) = List.length sub.
Proof.
  induction sub as [|f tl IH]; intros n; simpl; [|rewrite IH]; reflexivity.
Qed.

Lemma chain_reseq (sub : list Fragment) :
  forall n s e, chain s (reseq n sub) e <-> chain s sub e.
Proof.
  induction sub as [|f tl IH]; intros n s e; simpl; [tauto|].
  rewrite IH. tauto.
Qed.

Lemma reseq_offsets (Q : Z -> Prop) (sub : list Fragment) :
  forall n, Forall (fun f => Q (offset f)) sub ->
            Forall (fun f => Q (offset f)) (reseq n sub).
Proof.
  induction sub as [|f tl IH]; intros n H; simpl; constructor;
    inversion H; subst; auto.
Qed.

Lemma hop_loop_ok (header_size mtu : Z) (fragments : list Fragment) :
  forall new_fragments new,
    hop_loop header_size mtu new_fragments fragments = Ok new ->
    exists parts,
      new = new_fragments ++ List.concat parts
      /\ Forall2 (hop_part header_size mtu) fragments parts.
Proof.
  induction fragments as [|f rest IH]; intros acc new Hrun; simpl in Hrun.
  - injection Hrun as <-. exists []. simpl. rewrite app_nil_r.
    split; [reflexivity|constructor].
  - destruct (data_len f + header_size <=? mtu) eqn:Hfit.
    + apply IH in Hrun. destruct Hrun as [parts [-> Hparts]].
      exists ([f] :: parts). split.
      * rewrite <- app_assoc. destruct f; reflexivity.
      * constructor; [|assumption]. unfold hop_part. rewrite Hfit. reflexivity.
    + destruct (fragment_packet (data_len f) (offset f * 8) header_size mtu
                  (frag_id f)) as [sub| |] eqn:Hsub; try discriminate.
      apply IH in Hrun. destruct Hrun as [parts [-> Hparts]].
      rewrite renumber_reseq, <- app_assoc.
      exists (reseq (List.length acc) sub :: parts). split; [reflexivity|].
      constructor; [|assumption]. unfold hop_part. rewrite Hfit.
      exists sub, (List.length acc). split; [assumption|reflexivity].
Qed.

Lemma hop_loop_terminates (header_size mtu : Z) (fragments : list Fragment) :
  forall new_fragments,
    hop_loop header_size mtu new_fragments fragments <> OutOfFuel.
Proof.
  induction fragments as [|f rest IH]; intros acc; simpl; [discriminate|].
  destruct (data_len f + header_size <=? mtu); [apply IH|].
  destruct (fragment_packet (data_len f) (offset f * 8) header_size mtu
              (frag_id f)) eqn:Hsub; [apply IH|discriminate|].
  exfalso. exact (fragment_packet_terminates _ _ _ _ _ Hsub).
Qed.

(** A part tiles exactly the bytes of the fragment it comes from. *)
Lemma hop_part_chain (header_size mtu : Z) (f : Fragment) (part : list Fragment) :
  hop_part header_size mtu f part -> 0 < data_len f ->
  chain (offset f * 8) part (offset f * 8 + data_len f).
Proof.
  unfold hop_part. intros H Hpos.
  destruct (data_len f + header_size <=? mtu).
  - subst part. simpl. auto.
  - destruct H as [sub [n [Hsub ->]]]. apply chain_reseq.
    apply fragment_packet_ok in Hsub. destruct Hsub as [Hds [Hmtu Hch]].
    destruct (max_data_bounds _ _ Hmtu) as [Hmd Hal].
    eapply chunks_chain; try eassumption. lia.
Qed.

Lemma hop_parts_chain (header_size mtu : Z) (fragments : list Fragment)
    (parts : list (list Fragment)) :
  Forall2 (hop_part header_size mtu) fragments parts ->
  forall s e, chain s fragments e -> chain s (List.concat parts) e.
Proof.
  induction 1 as [|f part frs parts Hpart _ IH]; intros s e Hch; simpl.
  - exact Hch.
  - destruct Hch as [Hoff [Hpos Hrest]]. apply chain_app.
    exists (s + data_len f). split; [|exact (IH _ _ Hrest)].
    rewrite <- Hoff. exact (hop_part_chain _ _ _ _ Hpart Hpos).
Qed.

(** A hop keeps the hops_tile_payload. *)
Lemma hop_loop_chain (header_size mtu : Z) (fragments new : list Fragment)
    (s e : Z) :
  hop_loop header_size mtu [] fragments = Ok new ->
  chain s fragments e -> chain s new e.
Proof.
  intros Hrun Hch. apply hop_loop_ok in Hrun.
  destruct Hrun as [parts [-> Hparts]]. simpl.
  exact (hop_parts_chain _ _ _ _ Hparts _ _ Hch).
Qed.

Lemma hop_part_offset_bound (header_size mtu : Z) (f : Fragment)
    (part : list Fragment) :
  hop_part header_size mtu f part -> offset f <= 8191 ->
  Forall (fun g => offset g <= 8191) part.
Proof.
  unfold hop_part. intros H Hf.
  destruct (data_len f + header_size <=? mtu).
  - subst part. constructor; [assumption|constructor].
  - destruct H as [sub [n [Hsub ->]]].
    apply (reseq_offsets (fun o => o <= 8191)).
    apply fragment_packet_ok in Hsub. destruct Hsub as [_ [_ Hch]].
    eapply chunks_offset_bound; eassumption.
Qed.

(** A hop keeps every unit offset within the 13-bit field. *)
Lemma hop_loop_offset_bound (header_size mtu : Z) (fragments new : list Fragment) :
  hop_loop header_size mtu [] fragments = Ok new ->
  Forall (fun f => offset f <= 8191) fragments ->
  Forall (fun f => offset f <= 8191) new.
Proof.
  intros Hrun Hall. apply hop_loop_ok in Hrun.
  destruct Hrun as [parts [-> Hparts]]. simpl.
  induction Hparts as [|f part frs parts Hpart _ IH]; simpl; [constructor|].
  inversion Hall; subst. apply Forall_app. split.
  - exact (hop_part_offset_bound _ _ _ _ Hpart H1).
  - exact (IH H2).
Qed.

Lemma fragment_packet_in_range (data_size start header_size mtu fragment_id : Z) :
  0 < data_size -> header_size + 8 <= mtu ->
  start + data_size <= 65535 ->
  exists sub,
    fragment_packet data_size start header_size mtu fragment_id = Ok sub.
Proof.
  intros Hds Hmtu Hend.
  destruct (fragment_packet data_size start header_size mtu fragment_id)
    as [sub|e|] eqn:Hrun.
  - exists sub. reflexivity.
  - exfalso. rewrite fragment_packet_loop in Hrun by assumption.
    destruct (max_data_bounds _ _ Hmtu) as [Hmd Hal].
    apply (fragment_loop_raise _ _ Hmd Hal) in Hrun.
    destruct Hrun as [k [Hk [Hlt [Hgt _]]]].
    assert (start + k * ((mtu - header_size) / 8 * 8) <= 65535) by lia.
    lia.
  - exfalso. exact (fragment_packet_terminates _ _ _ _ _ Hrun).
Qed.

Lemma hop_loop_in_range (header_size mtu : Z) (fragments : list Fragment) :
  forall new_fragments s e,
    chain s fragments e -> e <= 65535 -> header_size + 8 <= mtu ->
    exists new, hop_loop header_size mtu new_fragments fragments = Ok new.
Proof.
  induction fragments as [|f rest IH]; intros acc s e Hch He Hmtu; simpl.
  - exists acc. reflexivity.
  - destruct Hch as [Hoff [Hpos Hrest]].
    destruct (data_len f + header_size <=? mtu).
    + exact (IH _ _ _ Hrest He Hmtu).
    + pose proof (chain_le _ _ _ Hrest) as Hle.
      destruct (fragment_packet_in_range (data_len f) (offset f * 8)
                  header_size mtu (frag_id f)) as [sub ->]; try lia.
      exact (IH _ _ _ Hrest He Hmtu).
Qed.

(** ** The hops of a simulation *)

(** The loop over the hops only appends: to the recorded hops and to the
    visualisation area, one entry per completed hop. *)
Lemma simulate_hops_run (header_size fragment_id : Z) (mtu_path : list Z) :
  forall hop_idx fragments st r,
    current_results st = Some r ->
    simulate_hops header_size fragment_id fragments hop_idx mtu_path st
    = (snd (hop_lists header_size fragments mtu_path),
       mkApp
         (Some (with_hops r
                  (hops r ++ hop_records hop_idx mtu_path
                               (fst (hop_lists header_size fragments mtu_path)))))
         (viz_scroll st
            ++ hop_tables header_size hop_idx mtu_path
                 (fst (hop_lists header_size fragments mtu_path)))
         (export_btn_normal st) (dialogs st)).
Proof.
  induction mtu_path as [|mtu rest IH]; intros idx frs st r Hr.
  - simpl. unfold ret, with_hops. rewrite !app_nil_r.
    destruct st as [cr vz ex dl]; simpl in *. subst cr. destruct r; reflexivity.
  - cbn [simulate_hops hop_lists]. unfold bind at 1. unfold lift.
    destruct (hop_loop header_size mtu [] frs) as [new|e|] eqn:Hhop.
    + unfold bind at 1. unfold append_hop. rewrite Hr.
      unfold bind at 1. unfold create_hop_table, pack, modify.
      cbn [current_results viz_scroll export_btn_normal dialogs].
      erewrite IH by reflexivity.
      destruct (hop_lists header_size new rest) as [ls o].
      cbn [fst snd hop_records hop_tables current_results viz_scroll
           export_btn_normal dialogs hops with_hops res_fragment_id
           original_packet_size res_header_size res_mtu_path timestamp].
      rewrite <- !app_assoc. reflexivity.
    + simpl. unfold with_hops. rewrite !app_nil_r.
      destruct st as [cr vz ex dl]; simpl in *. subst cr. destruct r; reflexivity.
    + simpl. unfold with_hops. rewrite !app_nil_r.
      destruct st as [cr vz ex dl]; simpl in *. subst cr. destruct r; reflexivity.
Qed.

Lemma hop_lists_terminates (header_size : Z) (mtu_path : list Z) :
  forall fragments,
    snd (hop_lists header_size fragments mtu_path) <> OutOfFuel.
Proof.
  induction mtu_path as [|mtu rest IH]; intros frs; simpl; [discriminate|].
  destruct (hop_loop header_size mtu [] frs) as [new|e|] eqn:Hhop.
  - specialize (IH new). destruct (hop_lists header_size new rest). exact IH.
  - discriminate.
  - exfalso. exact (hop_loop_terminates _ _ _ _ Hhop).
Qed.

(** The lists number at most the hops, and exactly the hops when the
    loop completes. *)
Lemma hop_lists_length (header_size : Z) (mtu_path : list Z) :
  forall fragments,
    match snd (hop_lists header_size fragments mtu_path) with
    | Ok _ =>
        List.length (fst (hop_lists header_size fragments mtu_path))
        = List.length mtu_path
    | _ =>
        (List.length (fst (hop_lists header_size fragments mtu_path))
         < List.length mtu_path)%nat
    end.
Proof.
  induction mtu_path as [|mtu rest IH]; intros frs; simpl; [reflexivity|].
  destruct (hop_loop header_size mtu [] frs) as [new|e|]; simpl; try lia.
  specialize (IH new). destruct (hop_lists header_size new rest) as [ls o].
  simpl in *. destruct o; lia.
Qed.

(** Each list is the result of running one hop on the list before it. *)
Lemma hop_lists_step (header_size : Z) (mtu_path : list Z) :
  forall fragments i prev new mtu,
    nth_error (fragments :: fst (hop_lists header_size fragments mtu_path)) i
    = Some prev ->
    nth_error (fst (hop_lists header_size fragments mtu_path)) i = Some new ->
    nth_error mtu_path i = Some mtu ->
    hop_loop header_size mtu [] prev = Ok new.
Proof.
  induction mtu_path as [|m rest IH]; intros frs i prev new mtu Hprev Hnew Hmtu.
  - destruct i; discriminate.
  - simpl in Hprev, Hnew.
    destruct (hop_loop header_size m [] frs) as [l|e|] eqn:Hhop;
      try (destruct i; discriminate).
    specialize (IH l).
    destruct (hop_lists header_size l rest) as [ls o]. simpl in *.
    destruct i as [|i].
    + simpl in *. congruence.
    + simpl in Hprev, Hnew, Hmtu. exact (IH i prev new mtu Hprev Hnew Hmtu).
Qed.

(** A property kept by every hop holds of every recorded list and of
    the final list. *)
Lemma hop_lists_invariant (P : list Fragment -> Prop) (header_size : Z)
    (Hstep : forall mtu frs new,
        P frs -> hop_loop header_size mtu [] frs = Ok new -> P new)
    (mtu_path : list Z) :
  forall fragments,
    P fragments ->
    Forall P (fst (hop_lists header_size fragments mtu_path))
    /\ forall last,
        snd (hop_lists header_size fragments mtu_path) = Ok last -> P last.
Proof.
  induction mtu_path as [|mtu rest IH]; intros frs HP; simpl.
  - split; [constructor|]. intros last Hl. injection Hl as <-. exact HP.
  - destruct (hop_loop header_size mtu [] frs) as [new|e|] eqn:Hhop;
      try (split; [constructor|discriminate]).
    pose proof (Hstep _ _ _ HP Hhop) as Hnew.
    destruct (IH new Hnew) as [Hall Hlast].
    destruct (hop_lists header_size new rest) as [ls o]. simpl in *.
    split; [constructor; assumption|assumption].
Qed.

(** With every MTU at least a header and 8 bytes, a tiled list inside
    the 16-bit range goes through every hop. *)
Lemma hop_lists_in_range (header_size : Z) (mtu_path : list Z) :
  forall fragments e,
    chain 0 fragments e -> e <= 65535 ->
    Forall (fun mtu => header_size + 8 <= mtu) mtu_path ->
    exists last, snd (hop_lists header_size fragments mtu_path) = Ok last.
Proof.
  induction mtu_path as [|mtu rest IH]; intros frs e Hch He Hall; simpl.
  - exists frs. reflexivity.
  - inversion Hall as [|? ? Hmtu Hrest]; subst.
    destruct (hop_loop_in_range header_size mtu frs [] 0 e Hch He Hmtu)
      as [new Hnew].
    rewrite Hnew.
    pose proof (hop_loop_chain _ _ _ _ _ _ Hnew Hch) as Hch'.
    destruct (IH new e Hch' He Hrest) as [last Hlast].
    destruct (hop_lists header_size new rest) as [ls o]. simpl in *.
    exists last. exact Hlast.
Qed.

Lemma hop_records_nth (mtu_path : list Z) :
  forall hop_idx ls i hd,
    nth_error (hop_records hop_idx mtu_path ls) i = Some hd ->
    hop_num hd = hop_idx + Z.of_nat i + 1
    /\ nth_error mtu_path i = Some (hop_mtu hd)
    /\ nth_error ls i = Some (hop_fragments hd).
Proof.
  induction mtu_path as [|mtu rest IH]; intros idx ls i hd H.
  - destruct i; discriminate.
  - destruct ls as [|l ls]; [destruct i; discriminate|].
    destruct i as [|i]; simpl in H.
    + injection H as <-. simpl. repeat split. lia.
    + apply IH in H. simpl. destruct H as [Hn [Hm Hl]].
      repeat split; try assumption. lia.
Qed.

Lemma hop_records_length (mtu_path : list Z) :
  forall hop_idx ls,
    (List.length ls <= List.length mtu_path)%nat ->
    List.length (hop_records hop_idx mtu_path ls) = List.length ls.
Proof.
  induction mtu_path as [|mtu rest IH]; intros idx ls H.
  - destruct ls; [reflexivity|simpl in H; lia].
  - destruct ls as [|l ls]; [reflexivity|]. simpl in *. rewrite IH; lia.
Qed.

Lemma hop_records_fragments (mtu_path : list Z) :
  forall hop_idx ls,
    (List.length ls <= List.length mtu_path)%nat ->
    map hop_fragments (hop_records hop_idx mtu_path ls) = ls.
Proof.
  induction mtu_path as [|mtu rest IH]; intros idx ls H.
  - destruct ls; [reflexivity|simpl in H; lia].
  - destruct ls as [|l ls]; [reflexivity|]. simpl in *.
    rewrite IH; [reflexivity|lia].
Qed.

(** ** The validator *)

Lemma validate_mtu_path_agrees (header_size : Z) (mtu_path : list Z) :
  forall i,
    agrees (validate_mtu_path AppConfig_default header_size i mtu_path)
           (first_bad_mtu header_size (i + 1) mtu_path).
Proof.
  induction mtu_path as [|mtu rest IH]; intros i; simpl.
  - reflexivity.
  - destruct (Z.ltb_spec mtu 68) as [H1|H1].
    + replace (68 <=? mtu) with false by (symmetry; apply Z.leb_gt; lia).
      simpl. eexists. split; reflexivity.
    + replace (68 <=? mtu) with true by (symmetry; apply Z.leb_le; lia).
      destruct (Z.gtb_spec mtu 65535) as [H2|H2].
      * replace (mtu <=? 65535) with false by (symmetry; apply Z.leb_gt; lia).
        simpl. eexists. split; reflexivity.
      * replace (mtu <=? 65535) with true by (symmetry; apply Z.leb_le; lia).
        destruct (Z.ltb_spec mtu (header_size + 8)) as [H3|H3].
        -- replace (mtu >=? header_size + 8) with false
             by (symmetry; rewrite Z.geb_leb; apply Z.leb_gt; lia).
           simpl. eexists. split; reflexivity.
        -- replace (mtu >=? header_size + 8) with true
             by (symmetry; rewrite Z.geb_leb; apply Z.leb_le; lia).
           simpl. apply IH.
Qed.

Lemma first_bad_mtu_none (header_size : Z) (mtu_path : list Z) :
  forall hop,
    first_bad_mtu header_size hop mtu_path = None
    <-> Forall (fun mtu => 68 <= mtu <= 65535 /\ mtu >= header_size + 8)
               mtu_path.
Proof.
  induction mtu_path as [|mtu rest IH]; intros hop; simpl.
  - split; [constructor|reflexivity].
  - destruct ((68 <=? mtu) && (mtu <=? 65535) && (mtu >=? header_size + 8))
      eqn:Hb.
    + rewrite IH. apply andb_prop in Hb. destruct Hb as [Hb H3].
      apply andb_prop in Hb. destruct Hb as [H1 H2].
      apply Z.leb_le in H1. apply Z.leb_le in H2.
      rewrite Z.geb_leb in H3. apply Z.leb_le in H3.
      split.
      * intros Hrest. constructor; [lia|assumption].
      * intros Hall. inversion Hall; assumption.
    + split; [discriminate|]. intros Hall. inversion Hall as [|? ? Hm _]; subst.
      exfalso.
      assert (Ht : (68 <=? mtu) && (mtu <=? 65535) && (mtu >=? header_size + 8)
                   = true).
      { rewrite !andb_true_iff, Z.geb_leb, !Z.leb_le. lia. }
      congruence.
Qed.

Lemma validate_agrees (packet_size header_size : Z) (mtu_path : list Z) :
  agrees (validate_fragmentation_inputs packet_size header_size mtu_path)
         (first_violated packet_size header_size mtu_path).
Proof.
  unfold validate_fragmentation_inputs, first_violated.
  cbn [min_packet_size max_packet_size min_header_size max_header_size
       AppConfig_default].
  destruct (Z.ltb_spec packet_size 20) as [H1|H1].
  { replace (20 <=? packet_size) with false by (symmetry; apply Z.leb_gt; lia).
    simpl. eexists. split; reflexivity. }
  replace (20 <=? packet_size) with true by (symmetry; apply Z.leb_le; lia).
  destruct (Z.gtb_spec packet_size 65535) as [H2|H2].
  { replace (packet_size <=? 65535) with false
      by (symmetry; apply Z.leb_gt; lia).
    simpl. eexists. split; reflexivity. }
  replace (packet_size <=? 65535) with true by (symmetry; apply Z.leb_le; lia).
  destruct (Z.ltb_spec header_size 20) as [H3|H3].
  { replace (20 <=? header_size) with false by (symmetry; apply Z.leb_gt; lia).
    simpl. eexists. split; reflexivity. }
  replace (20 <=? header_size) with true by (symmetry; apply Z.leb_le; lia).
  destruct (Z.gtb_spec header_size 60) as [H4|H4].
  { replace (header_size <=? 60) with false by (symmetry; apply Z.leb_gt; lia).
    simpl. eexists. split; reflexivity. }
  replace (header_size <=? 60) with true by (symmetry; apply Z.leb_le; lia).
  destruct (header_size mod 4 =? 0) eqn:H5.
  2:{ simpl. eexists. split; reflexivity. }
  destruct (Z.ltb_spec (packet_size - header_size) 0) as [H6|H6].
  { replace (packet_size - header_size >? 0) with false
      by (symmetry; rewrite Z.gtb_ltb; apply Z.ltb_ge; lia).
    simpl. eexists. split; reflexivity. }
  destruct (Z.eqb_spec (packet_size - header_size) 0) as [H7|H7].
  { replace (packet_size - header_size >? 0) with false
      by (symmetry; rewrite Z.gtb_ltb; apply Z.ltb_ge; lia).
    simpl. eexists. split; reflexivity. }
  replace (packet_size - header_size >? 0) with true
    by (symmetry; rewrite Z.gtb_ltb; apply Z.ltb_lt; lia).
  cbn [andb negb].
  destruct mtu_path as [|mtu rest].
  { simpl. eexists. split; reflexivity. }
  exact (validate_mtu_path_agrees header_size (mtu :: rest) 0).
Qed.

Lemma first_violated_none (packet_size header_size : Z) (mtu_path : list Z) :
  first_violated packet_size header_size mtu_path = None
  <-> valid_inputs packet_size header_size mtu_path.
Proof.
  unfold first_violated, valid_inputs.
  destruct ((20 <=? packet_size) && (packet_size <=? 65535)) eqn:Hp; simpl.
  2:{ split; [discriminate|]. intros [H _]. exfalso.
      assert ((20 <=? packet_size) && (packet_size <=? 65535) = true)
        by (rewrite andb_true_iff, !Z.leb_le; lia).
      congruence. }
  rewrite andb_true_iff, !Z.leb_le in Hp.
  destruct ((20 <=? header_size) && (header_size <=? 60)
            && (header_size mod 4 =? 0)) eqn:Hh; simpl.
  2:{ split; [discriminate|]. intros [_ [[H H'] _]]. exfalso.
      assert ((20 <=? header_size) && (header_size <=? 60)
              && (header_size mod 4 =? 0) = true)
        by (rewrite !andb_true_iff, !Z.leb_le, Z.eqb_eq; lia).
      congruence. }
  rewrite !andb_true_iff, !Z.leb_le, Z.eqb_eq in Hh.
  destruct (Z.gtb_spec (packet_size - header_size) 0) as [Hd|Hd]; simpl.
  2:{ split; [discriminate|]. intros [_ [_ [H _]]]. lia. }
  destruct mtu_path as [|mtu rest].
  { split; [discriminate|]. intros [_ [_ [_ [H _]]]]. congruence. }
  rewrite first_bad_mtu_none. split.
  - intros Hall. repeat split; try lia; try assumption. discriminate.
  - intros [_ [_ [_ [_ Hall]]]]. exact Hall.
Qed.

Lemma validate_ok_iff (packet_size header_size : Z) (mtu_path : list Z) :
  validate_fragmentation_inputs packet_size header_size mtu_path = Ok tt
  <-> valid_inputs packet_size header_size mtu_path.
Proof.
  rewrite <- first_violated_none.
  pose proof (validate_agrees packet_size header_size mtu_path) as H.
  unfold agrees in H.
  destruct (first_violated packet_size header_size mtu_path) as [rule|].
  - destruct H as [e [-> _]]. split; discriminate.
  - tauto.
Qed.

(** ** The whole simulation *)

Lemma simulate_body_run (clock : Clock) (packet_size header_size : Z)
    (mtu_path : list Z) (st : App) :
  simulate_body clock packet_size header_size mtu_path st
  = let run := hop_lists header_size
                 (initial_fragments clock packet_size header_size) mtu_path in
    let r := results_after clock packet_size header_size mtu_path (fst run) in
    let tables := hop_tables header_size 0 mtu_path (fst run) in
    match snd run with
    | Ok _ => (Ok tt, mkApp (Some r) (tables ++ [Footer]) true (dialogs st))
    | Raise e =>
        (Raise e, mkApp (Some r) tables (export_btn_normal st) (dialogs st))
    | OutOfFuel =>
        (OutOfFuel, mkApp (Some r) tables (export_btn_normal st) (dialogs st))
    end.
Proof.
  unfold simulate_body.
  unfold bind at 1. unfold clear_visualization_area, modify.
  unfold bind at 1. unfold set_current_results, modify.
  unfold bind at 1.
  erewrite simulate_hops_run by reflexivity.
  fold (initial_fragments clock packet_size header_size).
  destruct (hop_lists header_size
              (initial_fragments clock packet_size header_size) mtu_path)
    as [ls o].
  destruct o; reflexivity.
Qed.

Lemma ints_parsed (l : list Z) : ints (map IntOk l) = Ok l.
Proof. induction l as [|n l IH]; simpl; [|rewrite IH]; reflexivity. Qed.

(** Reading the pieces: all are integers, or the leftmost that is not
    raises. *)
Lemma ints_cases (pieces : list IntText) :
  (exists l, pieces = map IntOk l /\ ints pieces = Ok l)
  \/ (exists before text after,
         pieces = map IntOk before ++ IntError text :: after
         /\ ints pieces = raise_ValueError (InvalidLiteral text)).
Proof.
  induction pieces as [|piece rest IH].
  - left. exists []. split; reflexivity.
  - destruct piece as [n|text].
    + destruct IH as [[l [-> Hl]]|[before [text [after [-> Hr]]]]].
      * left. exists (n :: l). simpl. rewrite Hl. split; reflexivity.
      * right. exists (n :: before), text, after. simpl. simpl in Hr.
        rewrite Hr. split; reflexivity.
    + right. exists [], text, rest. split; reflexivity.
Qed.

Lemma entries_of_inj (ps hs ps' hs' : Z) (path path' : list Z) :
  entries_of ps hs path = entries_of ps' hs' path' ->
  ps = ps' /\ hs = hs' /\ path = path'.
Proof.
  unfold entries_of. intros H. injection H as Hps Hhs Hpath.
  split; [assumption|]. split; [assumption|].
  destruct path as [|m l], path' as [|m' l']; try discriminate;
    [reflexivity|].
  injection Hpath as Hm Hl. subst m'. f_equal.
  revert l' Hl. induction l as [|x l IH]; intros [|x' l'] Hl;
    try discriminate; [reflexivity|].
  simpl in Hl. injection Hl as Hx Hl. subst x'. f_equal. exact (IH _ Hl).
Qed.

(** The method on entries that all read as integers, with at least one
    MTU: the outcome is the validator's. *)
Lemma validate_inputs_parsed (packet_size header_size : Z)
    (mtu_path : list Z) (st : App) :
  mtu_path <> [] ->
  validate_inputs (entries_of packet_size header_size mtu_path) st
  = (match validate_fragmentation_inputs packet_size header_size mtu_path with
     | Ok _ => Ok (packet_size, header_size, mtu_path)
     | Raise (ValueError_ v) => raise_ValueError (InputValidationError v)
     | Raise e => Raise e
     | OutOfFuel => OutOfFuel
     end, st).
Proof.
  intros Hne. destruct mtu_path as [|mtu rest]; [congruence|].
  unfold validate_inputs, entries_of, try_except, bind, lift, ret.
  cbn [packet_size_entry header_size_entry mtu_path_entry int_].
  change (IntOk mtu :: map IntOk rest) with (map IntOk (mtu :: rest)).
  rewrite ints_parsed.
  destruct (validate_fragmentation_inputs packet_size header_size
              (mtu :: rest)) as [[]|[v|msg]|]; reflexivity.
Qed.

(** The two ways the method ends: the form is accepted and the integers
    read are returned, or it is refused and the prefixed diagnostic is
    raised; the application object is left as it is. *)
Lemma validate_inputs_cases (entries : Entries) (st : App) :
  (exists packet_size header_size mtu_path,
      entries = entries_of packet_size header_size mtu_path
      /\ valid_inputs packet_size header_size mtu_path
      /\ validate_inputs entries st
         = (Ok (packet_size, header_size, mtu_path), st))
  \/ (exists e,
         rejects entries e
         /\ validate_inputs entries st
            = (raise_ValueError (InputValidationError e), st)).
Proof.
  destruct entries as [[ps|text] [hs|text'] mtus];
    try (right; eexists; split; [constructor|reflexivity]).
  destruct mtus as [|first rest];
    [right; eexists; split; [constructor|reflexivity]|].
  destruct (ints_cases (first :: rest))
    as [[path [Hpieces Hread]]|[before [text [after [Hpieces Hread]]]]].
  - assert (Hne : path <> []) by (destruct path; discriminate).
    assert (Hentries : mkEntries (IntOk ps) (IntOk hs) (MtuItems first rest)
                       = entries_of ps hs path).
    { unfold entries_of. destruct path as [|m l]; [congruence|].
      simpl in Hpieces. injection Hpieces as -> ->. reflexivity. }
    rewrite Hentries, (validate_inputs_parsed _ _ _ _ Hne).
    pose proof (validate_agrees ps hs path) as Hv. unfold agrees in Hv.
    destruct (first_violated ps hs path) as [rule|] eqn:Hfirst.
    + right. destruct Hv as [e [Hraise Hrule]]. exists e. split.
      * exact (rejects_rule _ _ _ _ _ Hne Hfirst Hrule Hraise).
      * rewrite Hraise. reflexivity.
    + left. exists ps, hs, path. split; [reflexivity|]. split.
      * apply first_violated_none. exact Hfirst.
      * rewrite Hv. reflexivity.
  - right. exists (InvalidLiteral text). split.
    + exact (rejects_piece _ _ _ _ _ _ _ Hpieces).
    + unfold validate_inputs, try_except, bind, lift.
      cbn [packet_size_entry header_size_entry mtu_path_entry int_].
      rewrite Hread. reflexivity.
Qed.

(** A refused form is not an accepted one. *)
Lemma rejects_not_accepted (entries : Entries) (e : ValueError) :
  rejects entries e -> ~ accepted entries.
Proof.
  intros Hrej [ps [hs [path [Heq Hvalid]]]].
  assert (Hne : path <> []) by (destruct Hvalid as [_ [_ [_ [H _]]]]; exact H).
  destruct Hrej as [text header mtus|n text mtus|ps' hs'
                    |ps' hs' first rest before text after Hpieces
                    |ps' hs' path' rule e Hne' Hfirst _ _].
  - unfold entries_of in Heq. discriminate.
  - unfold entries_of in Heq. discriminate.
  - unfold entries_of in Heq. destruct path; [congruence|discriminate].
  - unfold entries_of in Heq. destruct path as [|m l]; [congruence|].
    injection Heq as _ _ Hfirst Hrest. subst first rest.
    assert (Hin : In (IntError text) (map IntOk (m :: l))).
    { cbn [map]. rewrite Hpieces. apply in_or_app. right. left. reflexivity. }
    apply in_map_iff in Hin. destruct Hin as [x [Hx _]]. discriminate.
  - apply entries_of_inj in Heq. destruct Heq as [-> [-> ->]].
    apply first_violated_none in Hvalid. congruence.
Qed.

Lemma simulate_fragmentation_accepted (clock : Clock)
    (packet_size header_size : Z) (mtu_path : list Z) (st : App) :
  validate_fragmentation_inputs packet_size header_size mtu_path = Ok tt ->
  simulate_fragmentation clock (entries_of packet_size header_size mtu_path) st
  = simulate_validated clock packet_size header_size mtu_path st.
Proof.
  intros Hv.
  assert (Hne : mtu_path <> []).
  { apply validate_ok_iff in Hv. destruct Hv as [_ [_ [_ [H _]]]]. exact H. }
  unfold simulate_fragmentation, simulate_validated, try_except.
  unfold bind at 1. rewrite (validate_inputs_parsed _ _ _ _ Hne), Hv.
  reflexivity.
Qed.

(** A refused form changes nothing but the dialogs. *)
Lemma simulate_fragmentation_rejected (clock : Clock) (entries : Entries)
    (st : App) (e : ValueError) :
  validate_inputs entries st
  = (raise_ValueError (InputValidationError e), st) ->
  simulate_fragmentation clock entries st
  = (Ok tt,
     mkApp (current_results st) (viz_scroll st) (export_btn_normal st)
       (dialogs st
          ++ [mkDialog "Validation Error" (message (InputValidationError e))])).
Proof.
  intros Hv. unfold simulate_fragmentation, try_except.
  unfold bind at 1. rewrite Hv. reflexivity.
Qed.

(** What the validator accepts is enough for the hops: a payload of at
    least one byte that ends inside the 16-bit range, and MTUs of at
    least a header and 8 bytes. *)
Lemma valid_inputs_hops (clock : Clock) (packet_size header_size : Z)
    (mtu_path : list Z) :
  valid_inputs packet_size header_size mtu_path ->
  chain 0 (initial_fragments clock packet_size header_size)
    (packet_size - header_size)
  /\ packet_size - header_size <= 65535
  /\ Forall (fun mtu => header_size + 8 <= mtu) mtu_path.
Proof.
  intros [Hp [[Hh _] [Hd [_ Hall]]]]. split; [|split].
  - simpl. lia.
  - lia.
  - eapply Forall_impl; [|exact Hall]. simpl. intros mtu H. lia.
Qed.

Lemma hop_loop_well_formed (data_size header_size mtu : Z)
    (frs new : list Fragment) :
  well_formed data_size frs ->
  hop_loop header_size mtu [] frs = Ok new ->
  well_formed data_size new.
Proof.
  intros [Hch Hoff] Hrun. split.
  - exact (hop_loop_chain _ _ _ _ _ _ Hrun Hch).
  - exact (hop_loop_offset_bound _ _ _ _ Hrun Hoff).
Qed.

(** For an accepted input the simulation completes: it records one
    well-formed list per hop, enables the export and shows no dialog. *)
Lemma simulation_valid (clock : Clock) (packet_size header_size : Z)
    (mtu_path : list Z) (st : App) :
  valid_inputs packet_size header_size mtu_path ->
  exists ls last,
    hop_lists header_size (initial_fragments clock packet_size header_size)
      mtu_path = (ls, Ok last)
    /\ List.length ls = List.length mtu_path
    /\ Forall (well_formed (packet_size - header_size)) ls
    /\ simulate_fragmentation clock
         (entries_of packet_size header_size mtu_path) st
       = (Ok tt,
          mkApp
            (Some (results_after clock packet_size header_size mtu_path ls))
            (hop_tables header_size 0 mtu_path ls ++ [Footer]) true
            (dialogs st)).
Proof.
  intros Hvalid.
  destruct (valid_inputs_hops clock _ _ _ Hvalid) as [Hch [Hle Hmtus]].
  destruct (hop_lists_in_range header_size mtu_path _ _ Hch Hle Hmtus)
    as [last Hlast].
  pose proof (hop_lists_length header_size mtu_path
                (initial_fragments clock packet_size header_size)) as Hlen.
  assert (Hwf : well_formed (packet_size - header_size)
                  (initial_fragments clock packet_size header_size)).
  { split; [exact Hch|]. repeat constructor. simpl. lia. }
  destruct (hop_lists_invariant (well_formed (packet_size - header_size))
              header_size
              (fun mtu frs new H => hop_loop_well_formed _ _ mtu frs new H)
              mtu_path _ Hwf) as [Hall _].
  apply validate_ok_iff in Hvalid.
  rewrite (simulate_fragmentation_accepted _ _ _ _ _ Hvalid).
  unfold simulate_validated, try_except. rewrite simulate_body_run.
  destruct (hop_lists header_size
              (initial_fragments clock packet_size header_size) mtu_path)
    as [ls o].
  simpl in *. subst o. exists ls, last. repeat split; assumption.
Qed.

(** The hops that a run past the validator leaves in [current_results],
    whether it completes or not. *)
Lemma simulate_validated_hops (clock : Clock) (packet_size header_size : Z)
    (mtu_path : list Z) (st : App) :
  hops_of (snd (simulate_validated clock packet_size header_size mtu_path st))
  = hop_records 0 mtu_path
      (fst (hop_lists header_size
              (initial_fragments clock packet_size header_size) mtu_path)).
Proof.
  unfold simulate_validated, try_except. rewrite simulate_body_run.
  destruct (hop_lists header_size
              (initial_fragments clock packet_size header_size) mtu_path)
    as [ls o].
  destruct o as [last|[v|msg]|]; reflexivity.
Qed.

(** The recorded hops of an accepted input: one per MTU, numbered from
    1, each well formed and each the result of running its hop on the
    list before it. *)
Lemma simulation_valid_hops (clock : Clock) (packet_size header_size : Z)
    (mtu_path : list Z) (st : App) :
  valid_inputs packet_size header_size mtu_path ->
  exists r,
    current_results
      (snd (simulate_fragmentation clock
              (entries_of packet_size header_size mtu_path) st))
    = Some r
    /\ List.length (hops r) = List.length mtu_path
    /\ forall i hd,
        nth_error (hops r) i = Some hd ->
        hop_num hd = Z.of_nat i + 1
        /\ nth_error mtu_path i = Some (hop_mtu hd)
        /\ well_formed (packet_size - header_size) (hop_fragments hd)
        /\ forall prev,
            nth_error (initial_fragments clock packet_size header_size
                         :: map hop_fragments (hops r)) i = Some prev ->
            hop_loop header_size (hop_mtu hd) [] prev = Ok (hop_fragments hd).
Proof.
  intros Hvalid.
  destruct (simulation_valid clock _ _ _ st Hvalid)
    as [ls [last [Hrun [Hlen [Hall ->]]]]].
  exists (results_after clock packet_size header_size mtu_path ls).
  cbn [snd current_results results_after hops].
  split; [reflexivity|]. split; [rewrite hop_records_length; lia|].
  intros i hd Hhd.
  rewrite hop_records_fragments by lia.
  destruct (hop_records_nth _ _ _ _ _ Hhd) as [Hnum [Hmtu Hl]].
  split; [lia|]. split; [assumption|]. split.
  - rewrite Forall_forall in Hall. apply Hall.
    exact (nth_error_In _ _ Hl).
  - intros prev Hprev.
    apply (hop_lists_step header_size mtu_path
             (initial_fragments clock packet_size header_size) i);
      rewrite ?Hrun; assumption.
Qed.

(** Every call of the method returns: the budget of the [while] loop is
    never exhausted and both kinds of exception are handled. *)
Lemma simulate_fragmentation_returns (clock : Clock) (entries : Entries)
    (st : App) :
  fst (simulate_fragmentation clock entries st) = Ok tt.
Proof.
  destruct (validate_inputs_cases entries st)
    as [[ps [hs [path [-> [Hvalid _]]]]]|[e [_ Hraise]]].
  - apply validate_ok_iff in Hvalid.
    rewrite (simulate_fragmentation_accepted _ _ _ _ _ Hvalid).
    unfold simulate_validated, try_except. rewrite simulate_body_run.
    pose proof (hop_lists_terminates hs path
                  (initial_fragments clock ps hs)) as Hfuel.
    destruct (hop_lists hs (initial_fragments clock ps hs) path) as [ls o].
    destruct o as [last|[v|msg]|]; [reflexivity|reflexivity|reflexivity|].
    exfalso. apply Hfuel. reflexivity.
  - rewrite (simulate_fragmentation_rejected _ _ _ _ Hraise). reflexivity.
Qed.

(** * The claims *)

(** C9.  The worked example: a packet of 1500 bytes with a 20-byte
    header over the single hop of MTU 576 is accepted and gives one hop
    with three fragments of 552, 552 and 376 data bytes at unit offsets 0,
    69 and 138, numbered 1 to 3, whose table rows carry the More-Fragments
    flags 1, 1, 0. *)
Theorem example_1500_20_576 (clock : Clock) (st : App) :
  let fid := now_ms clock mod 65536 in
  simulate_fragmentation clock (entries_of 1500 20 [576]) st
  = (Ok tt,
     mkApp
       (Some (mkResults fid 1500 20 [576]
                [mkHopData 1 576
                   [mkFragment fid 552 0 1; mkFragment fid 552 69 2;
                    mkFragment fid 376 138 3]]
                (now_iso clock)))
       [HopTable 1 576 3
          [mkRow 1 fid 572 552 0 0 true;
           mkRow 2 fid 572 552 552 69 true;
           mkRow 3 fid 396 376 1104 138 false];
        Footer]
       true (dialogs st)).
Proof.
  intros fid.
  rewrite simulate_fragmentation_accepted by (vm_compute; reflexivity).
  unfold simulate_validated, try_except. rewrite simulate_body_run.
  unfold initial_fragments, results_after. subst fid.
  generalize (now_ms clock mod 65536). intros fid.
  vm_compute. reflexivity.
Qed.

(** C10.  The guards of [fragment_packet]: a negative data size, a zero
    data size and an MTU below header + 8 each make the call raise a
    [ValueError], never return a list; the three diagnostics are the
    first that applies in that order and their texts differ pairwise. *)
Theorem fragment_packet_guard_errors
    (data_size start header_size mtu fragment_id : Z) :
  (data_size < 0 ->
   fragment_packet data_size start header_size mtu fragment_id
   = raise_ValueError DataSizeNegative)
  /\ (data_size = 0 ->
      fragment_packet data_size start header_size mtu fragment_id
      = raise_ValueError NoDataToFragment)
  /\ (0 < data_size -> mtu < header_size + 8 ->
      fragment_packet data_size start header_size mtu fragment_id
      = raise_ValueError (MtuTooSmall mtu header_size))
  /\ (data_size < 0 \/ data_size = 0 \/ mtu < header_size + 8 ->
      forall frs,
        fragment_packet data_size start header_size mtu fragment_id <> Ok frs)
  /\ message DataSizeNegative <> message NoDataToFragment
  /\ message DataSizeNegative <> message (MtuTooSmall mtu header_size)
  /\ message NoDataToFragment <> message (MtuTooSmall mtu header_size).
Proof.
  destruct (fragment_packet_guards data_size start header_size mtu fragment_id)
    as [[H1 E]|[[H1 E]|[[H1 [H2 E]]|[H1 H2]]]];
    (repeat split;
     [ intros; (exact E || lia)
     | intros; (exact E || lia)
     | intros; (exact E || lia)
     | intros Hc frs; try (rewrite E; discriminate); lia
     | discriminate | discriminate | discriminate ]).
Qed.

(** C10, at three calls: one per guard. *)
Lemma fragment_packet_guard_errors_witness :
  fragment_packet (-1) 0 20 576 7 = raise_ValueError DataSizeNegative
  /\ fragment_packet 0 0 20 576 7 = raise_ValueError NoDataToFragment
  /\ fragment_packet 100 0 20 27 7 = raise_ValueError (MtuTooSmall 27 20)
  /\ forall frs, fragment_packet 100 0 20 27 7 <> Ok frs.
Proof.
  split; [|split; [|split]].
  - apply (proj1 (fragment_packet_guard_errors (-1) 0 20 576 7)). lia.
  - apply (proj1 (proj2 (fragment_packet_guard_errors 0 0 20 576 7))).
    reflexivity.
  - apply (proj1 (proj2 (proj2 (fragment_packet_guard_errors 100 0 20 27 7))));
      lia.
  - apply (proj1 (proj2 (proj2 (proj2
             (fragment_packet_guard_errors 100 0 20 27 7))))).
    right; right. lia.
Defined.

(** C5.  The validator contract: [validate_fragmentation_inputs] returns
    exactly on the inputs with packet size in [20, 65535], header size in
    [20, 60] and a multiple of 4, at least one byte of data, a non-empty
    MTU path and every MTU in [68, 65535] and at least header + 8;
    otherwise it raises a diagnostic of the first rule, in that order,
    that is violated, naming the 1-indexed hop for an MTU; and validating
    leaves the application object unchanged. *)
Theorem validator_contract (packet_size header_size : Z) (mtu_path : list Z) :
  (validate_fragmentation_inputs packet_size header_size mtu_path = Ok tt
   <-> valid_inputs packet_size header_size mtu_path)
  /\ agrees (validate_fragmentation_inputs packet_size header_size mtu_path)
            (first_violated packet_size header_size mtu_path)
  /\ forall entries st, snd (validate_inputs entries st) = st.
Proof.
  split; [apply validate_ok_iff|]. split; [apply validate_agrees|].
  intros entries st.
  destruct (validate_inputs_cases entries st)
    as [[ps [hs [path [_ [_ ->]]]]]|[e [_ ->]]]; reflexivity.
Qed.

(** C1.  The run on a 1500-byte packet with a 20-byte header over the
    MTUs 576 and 400: the input is accepted; at the second hop the two
    552-byte fragments are split and their parts numbered 1 to 4 by
    position, while the 376-byte fragment that fits keeps the number 3 it
    had at the first hop, so the fifth fragment of the hop carries 3. *)
Theorem pass_through_keeps_old_number (clock : Clock) (st : App) :
  valid_inputs 1500 20 [576; 400]
  /\ exists r,
      current_results (snd (simulate_fragmentation clock
                              (entries_of 1500 20 [576; 400]) st))
      = Some r
      /\ map (fun hd => map (fun f => (data_len f, offset f, seq_num f))
                          (hop_fragments hd)) (hops r)
         = [[(552, 0, 1); (552, 69, 2); (376, 138, 3)];
            [(376, 0, 1); (176, 47, 2); (376, 69, 3); (176, 116, 4);
             (376, 138, 3)]].
Proof.
  split; [apply validate_ok_iff; vm_compute; reflexivity|].
  rewrite simulate_fragmentation_accepted by (vm_compute; reflexivity).
  unfold simulate_validated, try_except. rewrite simulate_body_run.
  unfold initial_fragments, results_after.
  generalize (now_ms clock mod 65536). intros fid.
  eexists. split; vm_compute; reflexivity.
Qed.

(** C3.  Data conservation: a list returned by [fragment_packet] sums to
    its [data_size] argument; and for an accepted input the simulation
    records one list per hop, the first of which sums to
    [packet_size - header_size] and each later one to the sum of the list
    before it. *)
Theorem data_conservation (clock : Clock) (packet_size header_size : Z)
    (mtu_path : list Z) (st : App) :
  (forall data_size start mtu fragment_id frs,
      fragment_packet data_size start header_size mtu fragment_id = Ok frs ->
      sum_data frs = data_size)
  /\ (valid_inputs packet_size header_size mtu_path ->
      exists r,
        current_results
          (snd (simulate_fragmentation clock
                  (entries_of packet_size header_size mtu_path) st)) = Some r
        /\ List.length (hops r) = List.length mtu_path
        /\ (forall hd,
               nth_error (hops r) 0 = Some hd ->
               sum_data (hop_fragments hd) = packet_size - header_size)
        /\ (forall i prev hd,
               nth_error (hops r) i = Some prev ->
               nth_error (hops r) (S i) = Some hd ->
               sum_data (hop_fragments hd) = sum_data (hop_fragments prev))).
Proof.
  split.
  - intros ds start mtu fid frs Hrun.
    apply fragment_packet_ok in Hrun. destruct Hrun as [Hds [_ Hch]].
    rewrite (chunks_sum _ _ _ _ _ _ Hch). lia.
  - intros Hvalid.
    destruct (simulation_valid_hops clock _ _ _ st Hvalid)
      as [r [Hr [Hlen Hhops]]].
    exists r. split; [assumption|]. split; [assumption|].
    assert (Hsum : forall i hd, nth_error (hops r) i = Some hd ->
                     sum_data (hop_fragments hd) = packet_size - header_size).
    { intros i hd Hhd. destruct (Hhops i hd Hhd) as [_ [_ [[Hch _] _]]].
      rewrite (chain_sum _ _ _ Hch). lia. }
    split.
    + intros hd Hhd. exact (Hsum 0%nat hd Hhd).
    + intros i prev hd Hprev Hhd.
      rewrite (Hsum _ _ Hprev), (Hsum _ _ Hhd). reflexivity.
Qed.

(** C3, at the packet of 1500 bytes over the MTUs 1500, 576, 1500. *)
Lemma data_conservation_witness :
  sum_data [mkFragment 7 552 0 1; mkFragment 7 552 69 2; mkFragment 7 376 138 3]
  = 1480
  /\ exists r,
      current_results
        (snd (simulate_fragmentation clock0
                (entries_of 1500 20 [1500; 576; 1500]) App_init))
      = Some r
      /\ List.length (hops r) = 3%nat.
Proof.
  destruct (data_conservation clock0 1500 20 [1500; 576; 1500] App_init)
    as [Hpacket Hhops].
  split.
  - apply (Hpacket 1480 0 576 7). vm_compute. reflexivity.
  - destruct Hhops as [r [Hr [Hlen _]]].
    + apply validate_ok_iff. vm_compute. reflexivity.
    + exists r. split; [exact Hr|exact Hlen].
Defined.

(** Any run past the validator records lists with every unit offset in
    the 13-bit field, also when a later hop fails. *)
Lemma recorded_offsets_bounded (clock : Clock) (packet_size header_size : Z)
    (mtu_path : list Z) (st : App) (hd : HopData) :
  In hd (hops_of (snd (simulate_validated clock packet_size header_size
                         mtu_path st))) ->
  Forall (fun f => offset f <= 8191) (hop_fragments hd).
Proof.
  rewrite simulate_validated_hops. intros Hin.
  pose proof (hop_lists_length header_size mtu_path
                (initial_fragments clock packet_size header_size)) as Hlen.
  destruct (hop_lists_invariant (Forall (fun f => offset f <= 8191))
              header_size
              (fun mtu frs new H R => hop_loop_offset_bound _ mtu frs new R H)
              mtu_path (initial_fragments clock packet_size header_size))
    as [Hall _].
  { repeat constructor. simpl. lia. }
  rewrite Forall_forall in Hall. apply Hall.
  apply (in_map hop_fragments) in Hin.
  rewrite hop_records_fragments in Hin; [exact Hin|].
  destruct (snd (hop_lists header_size
                   (initial_fragments clock packet_size header_size) mtu_path));
    lia.
Qed.

(** C4.  The offset bound: every fragment of a list returned by
    [fragment_packet] has a unit offset of at most 8191, and so has every
    fragment recorded by a simulation; [fragment_packet] raises the offset
    error exactly when the guards pass and some chunk boundary
    [start + k * max_data], with data still remaining there, has a unit
    offset above 8191, and then it returns no list. *)
Theorem offsets_within_field (data_size start header_size mtu fragment_id : Z) :
  let max_data := (mtu - header_size) / 8 * 8 in
  (forall frs,
      fragment_packet data_size start header_size mtu fragment_id = Ok frs ->
      Forall (fun f => offset f <= 8191) frs)
  /\ ((exists fragment_offset current_offset,
          fragment_packet data_size start header_size mtu fragment_id
          = raise_ValueError (OffsetOverflow fragment_offset current_offset))
      <-> (0 < data_size /\ header_size + 8 <= mtu
           /\ exists k, 0 <= k /\ k * max_data < data_size
                        /\ (start + k * max_data) / 8 > 8191))
  /\ (forall fragment_offset current_offset frs,
         fragment_packet data_size start header_size mtu fragment_id
         = raise_ValueError (OffsetOverflow fragment_offset current_offset) ->
         fragment_packet data_size start header_size mtu fragment_id <> Ok frs)
  /\ (forall clock packet_size mtu_path st hd,
         In hd (hops_of (snd (simulate_validated clock packet_size header_size
                                mtu_path st))) ->
         Forall (fun f => offset f <= 8191) (hop_fragments hd)).
Proof.
  intros max_data. split; [|split; [|split]].
  - intros frs Hrun. apply fragment_packet_ok in Hrun.
    destruct Hrun as [_ [_ Hch]]. eapply chunks_offset_bound; eassumption.
  - destruct (fragment_packet_guards data_size start header_size mtu
                fragment_id) as [[H1 E]|[[H1 E]|[[H1 [H2 E]]|[Hds Hmtu]]]];
      try (split;
           [ intros [fo [co H]]; rewrite E in H; discriminate
           | intros [? [? _]]; lia ]).
    destruct (max_data_bounds _ _ Hmtu) as [Hmd Hal]. fold max_data in Hmd, Hal.
    split.
    + intros [fo [co Hrun]]. split; [assumption|]. split; [assumption|].
      rewrite fragment_packet_loop in Hrun by assumption.
      apply (fragment_loop_raise _ _ Hmd Hal) in Hrun.
      destruct Hrun as [k [Hk [Hlt [Hgt _]]]]. exists k. auto.
    + intros [_ [_ [k [Hk [Hlt Hgt]]]]].
      destruct (fragment_packet data_size start header_size mtu fragment_id)
        as [frs|e|] eqn:Hrun.
      * exfalso. apply fragment_packet_ok in Hrun.
        destruct Hrun as [_ [_ Hch]].
        fold max_data in Hch.
        assert ((start + k * max_data) / 8 <= 8191)
          by (eapply chunks_no_overflow; eassumption).
        lia.
      * rewrite fragment_packet_loop in Hrun by assumption.
        apply (fragment_loop_raise _ _ Hmd Hal) in Hrun.
        destruct Hrun as [k' [_ [_ [_ ->]]]]. eexists. eexists. reflexivity.
      * exfalso. exact (fragment_packet_terminates _ _ _ _ _ Hrun).
  - intros fo co frs Hrun. rewrite Hrun. discriminate.
  - intros clock packet_size mtu_path st hd.
    apply recorded_offsets_bounded.
Qed.

(** C4, at a 70000-byte block cut for MTU 1500: the boundary 66600 has
    unit offset 8325; and at the 1480-byte block of the worked example. *)
Lemma offsets_within_field_witness :
  (exists fragment_offset current_offset,
      fragment_packet 70000 0 20 1500 7
      = raise_ValueError (OffsetOverflow fragment_offset current_offset))
  /\ Forall (fun f => offset f <= 8191)
       [mkFragment 7 552 0 1; mkFragment 7 552 69 2; mkFragment 7 376 138 3].
Proof.
  split.
  - apply (proj2 (proj1 (proj2 (offsets_within_field 70000 0 20 1500 7)))).
    split; [lia|]. split; [lia|]. exists 45. vm_compute.
    repeat split; discriminate.
  - apply (proj1 (offsets_within_field 1480 0 20 576 7)). vm_compute. reflexivity.
Defined.

(** C6.  Alignment: for an accepted input, in every recorded hop every
    fragment but the last of the hop's list carries a multiple of 8
    bytes. *)
Theorem non_last_fragments_aligned (clock : Clock) (packet_size header_size : Z)
    (mtu_path : list Z) (st : App) :
  valid_inputs packet_size header_size mtu_path ->
  exists r,
    current_results
      (snd (simulate_fragmentation clock
              (entries_of packet_size header_size mtu_path) st))
    = Some r
    /\ List.length (hops r) = List.length mtu_path
    /\ forall hd i f,
        In hd (hops r) ->
        nth_error (hop_fragments hd) i = Some f ->
        (S i < List.length (hop_fragments hd))%nat ->
        data_len f mod 8 = 0.
Proof.
  intros Hvalid.
  destruct (simulation_valid_hops clock _ _ _ st Hvalid)
    as [r [Hr [Hlen Hhops]]].
  exists r. split; [assumption|]. split; [assumption|].
  intros hd i f Hin Hf Hlt.
  apply In_nth_error in Hin. destruct Hin as [n Hn].
  destruct (Hhops n hd Hn) as [_ [_ [[Hch _] _]]].
  exact (chain_aligned _ _ _ _ _ Hch Hf Hlt).
Qed.

(** C6, at the packet of 1500 bytes over the MTUs 576 and 400. *)
Lemma non_last_fragments_aligned_witness :
  exists r,
    current_results
      (snd (simulate_fragmentation clock0
              (entries_of 1500 20 [576; 400]) App_init))
    = Some r
    /\ List.length (hops r) = 2%nat.
Proof.
  destruct (non_last_fragments_aligned clock0 1500 20 [576; 400] App_init)
    as [r [Hr [Hlen _]]].
  - apply validate_ok_iff. vm_compute. reflexivity.
  - exists r. split; [exact Hr|exact Hlen].
Defined.

(** C7, claim as stated, at a start that is not a multiple of 8: the
    call [fragment_packet(100, 4, 20, 68, 1)] returns three fragments at
    the unit offsets 0, 6 and 12, which cover the bytes from 0 and not
    the interval that starts at byte 4. *)
Lemma unaligned_start_not_tiled :
  exists frs,
    fragment_packet 100 4 20 68 1 = Ok frs
    /\ map (fun f => (data_len f, offset f)) frs = [(48, 0); (48, 6); (4, 12)]
    /\ ~ chain 4 frs (4 + 100).
Proof.
  eexists. split; [vm_compute; reflexivity|]. split; [reflexivity|].
  simpl. intros [H _]. discriminate.
Qed.

(** C7.  Tiling: for an accepted input every recorded hop tiles the bytes
    [0, packet_size - header_size): adjacent fragments touch and the unit
    offsets increase strictly.  A list returned by [fragment_packet] tiles
    the [data_size] bytes that begin at the start rounded down to a
    multiple of 8, hence the interval [start, start + data_size) when the
    start is a multiple of 8, as the docstring asks. *)
Theorem hops_tile_payload (clock : Clock) (packet_size header_size : Z)
    (mtu_path : list Z) (st : App) :
  (forall data_size start mtu fragment_id frs,
      fragment_packet data_size start header_size mtu fragment_id = Ok frs ->
      chain (start / 8 * 8) frs (start / 8 * 8 + data_size)
      /\ (start mod 8 = 0 -> chain start frs (start + data_size)))
  /\ (valid_inputs packet_size header_size mtu_path ->
      exists r,
        current_results
          (snd (simulate_fragmentation clock
                  (entries_of packet_size header_size mtu_path) st)) = Some r
        /\ List.length (hops r) = List.length mtu_path
        /\ forall hd,
            In hd (hops r) ->
            chain 0 (hop_fragments hd) (packet_size - header_size)
            /\ forall i f g,
                nth_error (hop_fragments hd) i = Some f ->
                nth_error (hop_fragments hd) (S i) = Some g ->
                offset g * 8 = offset f * 8 + data_len f
                /\ offset f < offset g).
Proof.
  split.
  - intros ds start mtu fid frs Hrun.
    apply fragment_packet_ok in Hrun. destruct Hrun as [Hds [Hmtu Hch]].
    destruct (max_data_bounds _ _ Hmtu) as [Hmd Hal].
    assert (Hfloor : chain (start / 8 * 8) frs (start / 8 * 8 + ds))
      by (eapply chunks_chain_floor; eassumption).
    split; [exact Hfloor|].
    intros Hal8. replace start with (start / 8 * 8) by lia. exact Hfloor.
  - intros Hvalid.
    destruct (simulation_valid_hops clock _ _ _ st Hvalid)
      as [r [Hr [Hlen Hhops]]].
    exists r. split; [assumption|]. split; [assumption|].
    intros hd Hin. apply In_nth_error in Hin. destruct Hin as [n Hn].
    destruct (Hhops n hd Hn) as [_ [_ [[Hch _] _]]].
    split; [exact Hch|].
    intros i f g Hf Hg. exact (chain_adjacent _ _ _ _ _ _ Hch Hf Hg).
Qed.

(** C7, at the 1480-byte block of the worked example and at the packet
    of 1500 bytes over the MTUs 576 and 400. *)
Lemma hops_tile_payload_witness :
  chain 0
    [mkFragment 7 552 0 1; mkFragment 7 552 69 2; mkFragment 7 376 138 3]
    (0 + 1480)
  /\ exists r,
      current_results
        (snd (simulate_fragmentation clock0
                (entries_of 1500 20 [576; 400]) App_init))
      = Some r
      /\ List.length (hops r) = 2%nat.
Proof.
  destruct (hops_tile_payload clock0 1500 20 [576; 400] App_init) as [Hpacket Hhops].
  split.
  - apply (Hpacket 1480 0 576 7).
    + vm_compute. reflexivity.
    + reflexivity.
  - destruct Hhops as [r [Hr [Hlen _]]].
    + apply validate_ok_iff. vm_compute. reflexivity.
    + exists r. split; [exact Hr|exact Hlen].
Defined.

Lemma hop_part_fits (header_size mtu : Z) (f : Fragment) (part : list Fragment) :
  hop_part header_size mtu f part -> fits header_size mtu f -> part = [f].
Proof.
  unfold hop_part, fits. intros H Hfit.
  destruct (Z.leb_spec (data_len f + header_size) mtu); [exact H|lia].
Qed.

Lemma hop_parts_all_fit (header_size mtu : Z) (fragments : list Fragment)
    (parts : list (list Fragment)) :
  Forall2 (hop_part header_size mtu) fragments parts ->
  Forall (fits header_size mtu) fragments ->
  List.concat parts = fragments.
Proof.
  induction 1 as [|f part frs parts Hpart _ IH]; intros Hall; [reflexivity|].
  inversion Hall; subst. simpl.
  rewrite (hop_part_fits _ _ _ _ Hpart) by assumption.
  rewrite IH by assumption. reflexivity.
Qed.

Lemma hop_parts_keep (header_size mtu : Z) (fragments : list Fragment)
    (parts : list (list Fragment)) (f : Fragment) :
  Forall2 (hop_part header_size mtu) fragments parts ->
  In f fragments -> fits header_size mtu f ->
  In f (List.concat parts).
Proof.
  induction 1 as [|g part frs parts Hpart _ IH]; intros Hin Hfit;
    [contradiction|].
  simpl. apply in_or_app. destruct Hin as [->|Hin].
  - left. rewrite (hop_part_fits _ _ _ _ Hpart Hfit). left. reflexivity.
  - right. exact (IH Hin Hfit).
Qed.

(** C8.  Pass-through: for an accepted input, each recorded hop is the
    concatenation, in order, of one part per fragment held at the start
    of the hop, and the part of a fragment with
    [data_length + header_size <= mtu] is that fragment alone, with all
    four fields as they were; so such a fragment is in the hop's list, and
    a hop that every held fragment fits records the list it was given. *)
Theorem fitting_fragments_pass (clock : Clock) (packet_size header_size : Z)
    (mtu_path : list Z) (st : App) :
  valid_inputs packet_size header_size mtu_path ->
  exists r,
    current_results
      (snd (simulate_fragmentation clock
              (entries_of packet_size header_size mtu_path) st))
    = Some r
    /\ List.length (hops r) = List.length mtu_path
    /\ forall i held hd,
        nth_error (initial_fragments clock packet_size header_size
                     :: map hop_fragments (hops r)) i = Some held ->
        nth_error (hops r) i = Some hd ->
        (exists parts,
            hop_fragments hd = List.concat parts
            /\ Forall2 (fun f part =>
                          fits header_size (hop_mtu hd) f -> part = [f])
                 held parts)
        /\ (forall f,
               In f held -> fits header_size (hop_mtu hd) f ->
               In f (hop_fragments hd))
        /\ (Forall (fits header_size (hop_mtu hd)) held ->
            hop_fragments hd = held).
Proof.
  intros Hvalid.
  destruct (simulation_valid_hops clock _ _ _ st Hvalid)
    as [r [Hr [Hlen Hhops]]].
  exists r. split; [assumption|]. split; [assumption|].
  intros i held hd Hheld Hhd.
  destruct (Hhops i hd Hhd) as [_ [_ [_ Hstep]]].
  specialize (Hstep held Hheld). apply hop_loop_ok in Hstep.
  destruct Hstep as [parts [Heq Hparts]]. simpl in Heq.
  split; [|split].
  - exists parts. split; [exact Heq|].
    eapply Forall2_impl; [|exact Hparts].
    intros f part Hpart Hfit. exact (hop_part_fits _ _ _ _ Hpart Hfit).
  - intros f Hin Hfit. rewrite Heq.
    exact (hop_parts_keep _ _ _ _ _ Hparts Hin Hfit).
  - intros Hall. rewrite Heq. exact (hop_parts_all_fit _ _ _ _ Hparts Hall).
Qed.

(** C8, at the packet of 1500 bytes over the MTUs 576 and 400, whose
    376-byte fragment passes the second hop. *)
Lemma fitting_fragments_pass_witness :
  exists r,
    current_results
      (snd (simulate_fragmentation clock0
              (entries_of 1500 20 [576; 400]) App_init))
    = Some r
    /\ List.length (hops r) = 2%nat.
Proof.
  destruct (fitting_fragments_pass clock0 1500 20 [576; 400] App_init)
    as [r [Hr [Hlen _]]].
  - apply validate_ok_iff. vm_compute. reflexivity.
  - exists r. split; [exact Hr|exact Hlen].
Defined.

Lemma hop_tables_map (header_size : Z) (mtu_path : list Z) :
  forall hop_idx ls,
    hop_tables header_size hop_idx mtu_path ls
    = map (table_of header_size) (hop_records hop_idx mtu_path ls).
Proof.
  induction mtu_path as [|mtu rest IH]; intros idx ls.
  - destruct ls; reflexivity.
  - destruct ls as [|l ls]; [reflexivity|]. simpl. rewrite IH. reflexivity.
Qed.



(** * Further properties of the engine *)

(** ** The list that [fragment_packet] returns *)

Lemma chunks_nth (fragment_id max_data : Z) (new : list Fragment) :
  forall current_offset seq remaining i f,
    chunks fragment_id max_data current_offset seq remaining new ->
    nth_error new i = Some f ->
    f = mkFragment fragment_id
          (Z.min max_data (remaining - Z.of_nat i * max_data))
          ((current_offset + Z.of_nat i * max_data) / 8)
          (seq + Z.of_nat i).
Proof.
  induction new as [|x tl IH]; intros co sq rem i f Hch Hf.
  - destruct i; discriminate.
  - destruct Hch as [Hrem [-> [_ Htl]]]. destruct i as [|i].
    + simpl in Hf. injection Hf as <-. f_equal; lia.
    + simpl in Hf.
      assert (Hmore : 0 < rem - Z.min rem max_data).
      { destruct tl; [destruct i; discriminate|]. simpl in Htl. tauto. }
      assert (Hmin : Z.min rem max_data = max_data) by lia.
      rewrite Hmin in Htl.
      rewrite (IH _ _ _ i f Htl Hf). f_equal; try lia; f_equal; lia.
Qed.

Lemma chunks_length (fragment_id max_data : Z) (new : list Fragment) :
  0 < max_data ->
  forall current_offset seq remaining,
    chunks fragment_id max_data current_offset seq remaining new ->
    0 < remaining ->
    (Z.of_nat (List.length new) - 1) * max_data < remaining
    /\ remaining <= Z.of_nat (List.length new) * max_data.
Proof.
  intros Hmd.
  induction new as [|x tl IH]; intros co sq rem Hch Hpos.
  - simpl in Hch. lia.
  - destruct Hch as [_ [_ [_ Htl]]].
    destruct tl as [|y tl'].
    + cbn [chunks] in Htl. cbn [List.length]. lia.
    + assert (Hmore : 0 < rem - Z.min rem max_data)
        by (cbn [chunks] in Htl; tauto).
      assert (Hmin : Z.min rem max_data = max_data) by lia.
      rewrite Hmin in *.
      destruct (IH _ _ _ Htl Hmore) as [Hlo Hhi].
      change (List.length (x :: y :: tl')) with (S (List.length (y :: tl'))).
      rewrite Nat2Z.inj_succ. lia.
Qed.

Lemma chunks_sizes (fragment_id max_data : Z) (new : list Fragment) :
  0 < max_data ->
  forall current_offset seq remaining,
    chunks fragment_id max_data current_offset seq remaining new ->
    Forall (fun f => 0 < data_len f <= max_data /\ frag_id f = fragment_id)
           new.
Proof.
  intros Hmd.
  induction new as [|x tl IH]; simpl; intros co sq rem Hch; constructor.
  - destruct Hch as [Hrem [-> _]]. simpl. lia.
  - destruct Hch as [_ [_ [_ Htl]]]. exact (IH _ _ _ Htl).
Qed.

(** X1.  Every fragment that [fragment_packet] returns can cross the
    link: it carries at least one byte, with the header it is no larger
    than the MTU, and it bears the identification passed to the call. *)
Theorem fragment_packet_fits_mtu
    (data_size start header_size mtu fragment_id : Z) (frs : list Fragment) :
  fragment_packet data_size start header_size mtu fragment_id = Ok frs ->
  frs <> []
  /\ Forall (fun f => 0 < data_len f
                      /\ data_len f + header_size <= mtu
                      /\ frag_id f = fragment_id) frs.
Proof.
  intros Hrun. apply fragment_packet_ok in Hrun.
  destruct Hrun as [Hds [Hmtu Hch]].
  destruct (max_data_bounds _ _ Hmtu) as [Hmd _]. split.
  - destruct frs; [simpl in Hch; lia|discriminate].
  - eapply Forall_impl; [|exact (chunks_sizes _ _ _ Hmd _ _ _ Hch)].
    simpl. intros f [H1 H2]. repeat split; lia.
Qed.

(** X1, at the 1480-byte block of the worked example. *)
Lemma fragment_packet_fits_mtu_witness :
  Forall (fun f => 0 < data_len f /\ data_len f + 20 <= 576 /\ frag_id f = 7)
    [mkFragment 7 552 0 1; mkFragment 7 552 69 2; mkFragment 7 376 138 3].
Proof.
  apply (fragment_packet_fits_mtu 1480 0 20 576 7). vm_compute. reflexivity.
Defined.

(** X2.  The list that [fragment_packet] returns in closed form: with
    [max_data] the MTU less the header rounded down to a multiple of 8,
    there are ceil(data_size / max_data) fragments, and the fragment at
    index [i] (from 0) carries [min max_data (data_size - i * max_data)]
    bytes at the unit offset of byte [start + i * max_data], with sequence
    number [i + 1]. *)
Theorem fragment_packet_closed_form
    (data_size start header_size mtu fragment_id : Z) (frs : list Fragment) :
  fragment_packet data_size start header_size mtu fragment_id = Ok frs ->
  let max_data := (mtu - header_size) / 8 * 8 in
  let n := Z.of_nat (List.length frs) in
  ((n - 1) * max_data < data_size /\ data_size <= n * max_data)
  /\ forall i f,
      nth_error frs i = Some f ->
      f = mkFragment fragment_id
            (Z.min max_data (data_size - Z.of_nat i * max_data))
            ((start + Z.of_nat i * max_data) / 8)
            (Z.of_nat i + 1).
Proof.
  intros Hrun max_data n. apply fragment_packet_ok in Hrun.
  destruct Hrun as [Hds [Hmtu Hch]].
  destruct (max_data_bounds _ _ Hmtu) as [Hmd _]. split.
  - exact (chunks_length _ _ _ Hmd _ _ _ Hch Hds).
  - intros i f Hf. rewrite (chunks_nth _ _ _ _ _ _ i f Hch Hf).
    f_equal. lia.
Qed.

(** X2, at the 1480-byte block of the worked example: three fragments. *)
Lemma fragment_packet_closed_form_witness :
  (3 - 1) * 552 < 1480 /\ 1480 <= 3 * 552.
Proof.
  exact (proj1 (fragment_packet_closed_form 1480 0 20 576 7
                  [mkFragment 7 552 0 1; mkFragment 7 552 69 2;
                   mkFragment 7 376 138 3] eq_refl)).
Defined.

(** ** The hops of an accepted simulation *)

Lemma reseq_fields (Q : Z -> Z -> Z -> Prop) (sub : list Fragment) :
  forall n,
    Forall (fun f => Q (frag_id f) (data_len f) (offset f)) sub ->
    Forall (fun f => Q (frag_id f) (data_len f) (offset f)) (reseq n sub).
Proof.
  induction sub as [|f tl IH]; intros n H; simpl; constructor;
    inversion H; subst; auto.
Qed.

Lemma reseq_nth (sub : list Fragment) :
  forall n k g,
    nth_error (reseq n sub) k = Some g ->
    seq_num g = Z.of_nat (n + k) + 1.
Proof.
  induction sub as [|f tl IH]; intros n k g H.
  - destruct k; discriminate.
  - destruct k as [|k]; simpl in H.
    + injection H as <-. simpl. lia.
    + rewrite (IH _ _ _ H). lia.
Qed.

Lemma fragment_packet_nonempty
    (data_size start header_size mtu fragment_id : Z) (sub : list Fragment) :
  fragment_packet data_size start header_size mtu fragment_id = Ok sub ->
  (1 <= List.length sub)%nat.
Proof.
  intros Hrun. apply fragment_packet_ok in Hrun.
  destruct Hrun as [Hds [_ Hch]].
  destruct sub; [simpl in Hch; lia|simpl; lia].
Qed.

(** What a part inherits from the fragment it comes from. *)
Lemma hop_part_sizes (header_size mtu : Z) (f : Fragment)
    (part : list Fragment) :
  hop_part header_size mtu f part ->
  (1 <= List.length part)%nat
  /\ Forall (fun g => data_len g + header_size <= mtu
                      /\ frag_id g = frag_id f) part.
Proof.
  unfold hop_part. intros H.
  destruct (Z.leb_spec (data_len f + header_size) mtu) as [Hfit|Hfit].
  - subst part. split; [simpl; lia|]. repeat constructor. exact Hfit.
  - destruct H as [sub [n [Hsub ->]]]. rewrite reseq_length. split.
    + exact (fragment_packet_nonempty _ _ _ _ _ _ Hsub).
    + apply fragment_packet_ok in Hsub. destruct Hsub as [_ [Hmtu Hch]].
      destruct (max_data_bounds _ _ Hmtu) as [Hmd _].
      apply (reseq_fields
               (fun id len _ => len + header_size <= mtu /\ id = frag_id f)).
      eapply Forall_impl; [|exact (chunks_sizes _ _ _ Hmd _ _ _ Hch)].
      simpl. intros g [H1 H2]. split; lia.
Qed.

Lemma hop_parts_sizes (header_size mtu fid : Z) (fragments : list Fragment)
    (parts : list (list Fragment)) :
  Forall2 (hop_part header_size mtu) fragments parts ->
  Forall (fun f => frag_id f = fid) fragments ->
  (List.length fragments <= List.length (List.concat parts))%nat
  /\ Forall (fun g => data_len g + header_size <= mtu /\ frag_id g = fid)
            (List.concat parts).
Proof.
  induction 1 as [|f part frs parts Hpart _ IH]; intros Hid; simpl.
  - split; [lia|constructor].
  - inversion Hid as [|? ? Hf Hrest]; subst.
    destruct (hop_part_sizes _ _ _ _ Hpart) as [Hlen Hall].
    destruct (IH Hrest) as [Hlen' Hall'].
    rewrite length_app. split; [lia|].
    apply Forall_app. split; [|exact Hall'].
    eapply Forall_impl; [|exact Hall]. simpl. intros g [H1 H2].
    split; congruence.
Qed.

(** One hop: nothing is lost, everything fits, the identification is
    kept. *)
Lemma hop_loop_sizes (header_size mtu fid : Z) (fragments new : list Fragment) :
  hop_loop header_size mtu [] fragments = Ok new ->
  Forall (fun f => frag_id f = fid) fragments ->
  (List.length fragments <= List.length new)%nat
  /\ Forall (fun g => data_len g + header_size <= mtu /\ frag_id g = fid) new.
Proof.
  intros Hrun Hid. apply hop_loop_ok in Hrun.
  destruct Hrun as [parts [-> Hparts]]. simpl.
  exact (hop_parts_sizes _ _ _ _ _ Hparts Hid).
Qed.

(** The list that a recorded hop started from is there: the initial
    list for the first hop, the list of the hop before for the others. *)
Lemma held_list_exists (A : Type) (x : A) (l : list A) (i : nat) (y : A) :
  nth_error l i = Some y -> exists held, nth_error (x :: l) i = Some held.
Proof.
  intros H.
  destruct (nth_error (x :: l) i) as [held|] eqn:E; [exists held; reflexivity|].
  apply nth_error_None in E. simpl in E.
  assert (i < List.length l)%nat by (apply nth_error_Some; congruence). lia.
Qed.

(** Induction over the recorded hops: what holds of the initial list and
    is kept by every hop holds of every recorded list. *)
Lemma recorded_hops_induction (P : list Fragment -> Prop) (header_size : Z)
    (initial : list Fragment) (recorded : list HopData) :
  P initial ->
  (forall mtu frs new,
      P frs -> hop_loop header_size mtu [] frs = Ok new -> P new) ->
  (forall i hd held,
      nth_error recorded i = Some hd ->
      nth_error (initial :: map hop_fragments recorded) i = Some held ->
      hop_loop header_size (hop_mtu hd) [] held = Ok (hop_fragments hd)) ->
  forall i hd, nth_error recorded i = Some hd -> P (hop_fragments hd).
Proof.
  intros Hinit Hstep Hrec i.
  induction i as [|i IH]; intros hd Hhd.
  - apply (Hstep (hop_mtu hd) initial); [exact Hinit|].
    apply (Hrec 0%nat hd initial Hhd). reflexivity.
  - destruct (nth_error recorded i) as [before|] eqn:Hbefore.
    + apply (Hstep (hop_mtu hd) (hop_fragments before)); [exact (IH _ eq_refl)|].
      apply (Hrec (S i) hd _ Hhd). simpl.
      rewrite nth_error_map, Hbefore. reflexivity.
    + apply nth_error_None in Hbefore.
      assert (S i < List.length recorded)%nat
        by (apply nth_error_Some; congruence).
      lia.
Qed.

(** X3.  For an accepted input, every fragment recorded for a hop can
    cross that hop: it carries at least one byte and, with the header, is
    no larger than the hop's MTU. *)
Theorem recorded_fragments_fit (clock : Clock) (packet_size header_size : Z)
    (mtu_path : list Z) (st : App) :
  valid_inputs packet_size header_size mtu_path ->
  exists r,
    current_results
      (snd (simulate_fragmentation clock
              (entries_of packet_size header_size mtu_path) st))
    = Some r
    /\ List.length (hops r) = List.length mtu_path
    /\ forall hd f,
        In hd (hops r) -> In f (hop_fragments hd) ->
        0 < data_len f /\ data_len f + header_size <= hop_mtu hd.
Proof.
  intros Hvalid.
  destruct (simulation_valid_hops clock _ _ _ st Hvalid)
    as [r [Hr [Hlen Hhops]]].
  exists r. split; [assumption|]. split; [assumption|].
  intros hd f Hin Hf.
  apply In_nth_error in Hin. destruct Hin as [i Hi].
  destruct (Hhops i hd Hi) as [_ [_ [[Hch _] Hstep]]].
  destruct (held_list_exists _
              (initial_fragments clock packet_size header_size)
              (map hop_fragments (hops r)) i (hop_fragments hd))
    as [held Hheld].
  { rewrite nth_error_map, Hi. reflexivity. }
  specialize (Hstep held Hheld). apply hop_loop_ok in Hstep.
  destruct Hstep as [parts [Heq Hparts]]. simpl in Heq.
  split.
  - pose proof (chain_positive _ _ _ Hch) as Hpos.
    rewrite Forall_forall in Hpos. exact (Hpos f Hf).
  - rewrite Heq in Hf. clear Heq Hheld Hch.
    induction Hparts as [|g part frs parts Hpart _ IH]; [contradiction|].
    simpl in Hf. apply in_app_or in Hf. destruct Hf as [Hf|Hf].
    + destruct (hop_part_sizes _ _ _ _ Hpart) as [_ Hall].
      rewrite Forall_forall in Hall. exact (proj1 (Hall f Hf)).
    + exact (IH Hf).
Qed.

(** X3, at the packet of 1500 bytes over the MTUs 576 and 400. *)
Lemma recorded_fragments_fit_witness :
  exists r,
    current_results
      (snd (simulate_fragmentation clock0
              (entries_of 1500 20 [576; 400]) App_init))
    = Some r
    /\ List.length (hops r) = 2%nat.
Proof.
  destruct (recorded_fragments_fit clock0 1500 20 [576; 400] App_init)
    as [r [Hr [Hlen _]]].
  - apply validate_ok_iff. vm_compute. reflexivity.
  - exists r. split; [exact Hr|exact Hlen].
Defined.

(** X4.  For an accepted input the results dictionary reports the run as
    it was asked: the packet size, header size, MTU path and time stamp
    given, an identification in the 16-bit range, the hops numbered from 1
    each with the MTU of its place in the path, and every fragment of
    every hop bearing that one identification. *)
Theorem report_matches_inputs (clock : Clock) (packet_size header_size : Z)
    (mtu_path : list Z) (st : App) :
  valid_inputs packet_size header_size mtu_path ->
  exists r,
    current_results
      (snd (simulate_fragmentation clock
              (entries_of packet_size header_size mtu_path) st))
    = Some r
    /\ (res_fragment_id r = now_ms clock mod 65536
        /\ 0 <= res_fragment_id r < 65536)
    /\ original_packet_size r = packet_size
    /\ res_header_size r = header_size
    /\ res_mtu_path r = mtu_path
    /\ timestamp r = now_iso clock
    /\ List.length (hops r) = List.length mtu_path
    /\ (forall i hd,
           nth_error (hops r) i = Some hd ->
           hop_num hd = Z.of_nat i + 1
           /\ nth_error mtu_path i = Some (hop_mtu hd))
    /\ (forall hd f,
           In hd (hops r) -> In f (hop_fragments hd) ->
           frag_id f = res_fragment_id r).
Proof.
  intros Hvalid.
  destruct (simulation_valid clock _ _ _ st Hvalid)
    as [ls [last [_ [_ [_ Hrun]]]]].
  destruct (simulation_valid_hops clock _ _ _ st Hvalid)
    as [r [Hr [Hlen Hhops]]].
  assert (Heq : r = results_after clock packet_size header_size mtu_path ls).
  { rewrite Hrun in Hr. simpl in Hr. congruence. }
  exists r. split; [assumption|].
  split; [split; [subst r; reflexivity|]|].
  { subst r. cbn [res_fragment_id results_after]. lia. }
  repeat (split; [subst r; reflexivity|]).
  split; [assumption|]. split.
  - intros i hd Hhd. destruct (Hhops i hd Hhd) as [Hn [Hm _]]. split; assumption.
  - intros hd f Hin Hf.
    apply In_nth_error in Hin. destruct Hin as [i Hi].
    assert (Hall : Forall (fun g => frag_id g = now_ms clock mod 65536)
                     (hop_fragments hd)).
    { apply (recorded_hops_induction
               (Forall (fun g => frag_id g = now_ms clock mod 65536))
               header_size (initial_fragments clock packet_size header_size)
               (hops r)) with (i := i).
      - repeat constructor.
      - intros mtu frs new Hfrs Hhop.
        destruct (hop_loop_sizes _ _ _ _ _ Hhop Hfrs) as [_ Hnew].
        eapply Forall_impl; [|exact Hnew]. simpl. tauto.
      - intros j hd' held Hj Hheld.
        destruct (Hhops j hd' Hj) as [_ [_ [_ Hstep]]]. exact (Hstep _ Hheld).
      - exact Hi. }
    rewrite Forall_forall in Hall. rewrite (Hall f Hf).
    subst r. reflexivity.
Qed.

(** X4, at the packet of 1500 bytes over the MTUs 576 and 400. *)
Lemma report_matches_inputs_witness :
  exists r,
    current_results
      (snd (simulate_fragmentation clock0
              (entries_of 1500 20 [576; 400]) App_init))
    = Some r
    /\ res_mtu_path r = [576; 400].
Proof.
  destruct (report_matches_inputs clock0 1500 20 [576; 400] App_init)
    as [r [Hr [_ [_ [_ [Hpath _]]]]]].
  - apply validate_ok_iff. vm_compute. reflexivity.
  - exists r. split; [exact Hr|exact Hpath].
Defined.

Lemma chain_length (l : list Fragment) :
  forall s e,
    chain s l e -> l <> [] -> 8 * (Z.of_nat (List.length l) - 1) < e - s.
Proof.
  induction l as [|f l IH]; intros s e Hch Hne; [congruence|].
  destruct Hch as [Hoff [Hpos Hrest]].
  destruct l as [|g l'].
  - simpl in Hrest. cbn [List.length]. lia.
  - assert (Hg : offset g * 8 = s + data_len f) by (simpl in Hrest; tauto).
    assert (Hne' : g :: l' <> []) by discriminate.
    pose proof (IH _ _ Hrest Hne') as Hlen.
    change (List.length (f :: g :: l')) with (S (List.length (g :: l'))).
    rewrite Nat2Z.inj_succ. lia.
Qed.

(** X5.  For an accepted input the number of fragments never shrinks
    from one hop to the next (nothing is reassembled on the way), every
    hop has at least one fragment, and a hop with [n] fragments has
    [8 * (n - 1)] below the payload size, so never more than 8190
    fragments. *)
Theorem fragment_count (clock : Clock) (packet_size header_size : Z)
    (mtu_path : list Z) (st : App) :
  valid_inputs packet_size header_size mtu_path ->
  exists r,
    current_results
      (snd (simulate_fragmentation clock
              (entries_of packet_size header_size mtu_path) st))
    = Some r
    /\ (forall hd,
           In hd (hops r) ->
           let n := Z.of_nat (List.length (hop_fragments hd)) in
           1 <= n <= 8190 /\ 8 * (n - 1) < packet_size - header_size)
    /\ (forall i before hd,
           nth_error (hops r) i = Some before ->
           nth_error (hops r) (S i) = Some hd ->
           (List.length (hop_fragments before)
            <= List.length (hop_fragments hd))%nat).
Proof.
  intros Hvalid.
  destruct (simulation_valid_hops clock _ _ _ st Hvalid)
    as [r [Hr [Hlen Hhops]]].
  exists r. split; [assumption|]. split.
  - intros hd Hin n. apply In_nth_error in Hin. destruct Hin as [i Hi].
    destruct (Hhops i hd Hi) as [_ [_ [[Hch _] _]]].
    assert (Hne : hop_fragments hd <> []).
    { intros E. rewrite E in Hch. simpl in Hch.
      destruct Hvalid as [_ [_ [Hd _]]]. lia. }
    pose proof (chain_length _ _ _ Hch Hne) as Hcount. fold n in Hcount.
    assert (1 <= n).
    { subst n. destruct (hop_fragments hd); [congruence|].
      cbn [List.length]. lia. }
    destruct Hvalid as [Hp [[Hh _] _]]. lia.
  - intros i before hd Hbefore Hhd.
    destruct (Hhops (S i) hd Hhd) as [_ [_ [_ Hstep]]].
    specialize (Hstep (hop_fragments before)).
    simpl in Hstep. rewrite nth_error_map, Hbefore in Hstep.
    specialize (Hstep eq_refl). apply hop_loop_ok in Hstep.
    destruct Hstep as [parts [-> Hparts]]. simpl.
    clear Hhd Hbefore.
    induction Hparts as [|g part frs parts Hpart _ IH]; simpl; [lia|].
    destruct (hop_part_sizes _ _ _ _ Hpart) as [Hone _].
    rewrite length_app. lia.
Qed.

(** X5, at the packet of 1500 bytes over the MTUs 576 and 400. *)
Lemma fragment_count_witness :
  exists r,
    current_results
      (snd (simulate_fragmentation clock0
              (entries_of 1500 20 [576; 400]) App_init))
    = Some r.
Proof.
  destruct (fragment_count clock0 1500 20 [576; 400] App_init) as [r [Hr _]].
  - apply validate_ok_iff. vm_compute. reflexivity.
  - exists r. exact Hr.
Defined.

Lemma seq_bounded_app (a b : list Fragment) :
  seq_bounded a ->
  (forall k g, nth_error b k = Some g ->
               1 <= seq_num g <= Z.of_nat (List.length a + k) + 1) ->
  seq_bounded (a ++ b).
Proof.
  intros Ha Hb i f Hf.
  destruct (Nat.lt_ge_cases i (List.length a)) as [Hlt|Hge].
  - rewrite nth_error_app1 in Hf by assumption. exact (Ha i f Hf).
  - rewrite nth_error_app2 in Hf by assumption.
    specialize (Hb _ _ Hf).
    replace (List.length a + (i - List.length a))%nat with i in Hb by lia.
    exact Hb.
Qed.

(** The accumulator of a hop stays [seq_bounded]: [p] fragments of the
    held list are consumed, each gave at least one fragment, and those
    still to come carry at most their place in the held list. *)
Lemma hop_loop_seq_bounded (header_size mtu : Z) (fragments : list Fragment) :
  forall new_fragments p new,
    hop_loop header_size mtu new_fragments fragments = Ok new ->
    (p <= List.length new_fragments)%nat ->
    seq_bounded new_fragments ->
    (forall j f, nth_error fragments j = Some f ->
                 1 <= seq_num f <= Z.of_nat (p + j) + 1) ->
    seq_bounded new.
Proof.
  induction fragments as [|f rest IH]; intros acc p new Hrun Hp Hacc Hheld;
    simpl in Hrun.
  - injection Hrun as <-. exact Hacc.
  - assert (Hrest : forall j g, nth_error rest j = Some g ->
                      1 <= seq_num g <= Z.of_nat (S p + j) + 1).
    { intros j g Hg. specialize (Hheld (S j) g Hg). lia. }
    pose proof (Hheld 0%nat f eq_refl) as Hf.
    destruct (data_len f + header_size <=? mtu).
    + apply (IH _ (S p) _ Hrun).
      * rewrite length_app. simpl. lia.
      * apply seq_bounded_app; [exact Hacc|].
        intros k g Hg. destruct k as [|k]; [|destruct k; discriminate].
        simpl in Hg. injection Hg as <-. simpl. lia.
      * exact Hrest.
    + destruct (fragment_packet (data_len f) (offset f * 8) header_size mtu
                  (frag_id f)) as [sub| |] eqn:Hsub; try discriminate.
      rewrite renumber_reseq in Hrun.
      apply (IH _ (S p) _ Hrun).
      * rewrite length_app, reseq_length.
        pose proof (fragment_packet_nonempty _ _ _ _ _ _ Hsub). lia.
      * apply seq_bounded_app; [exact Hacc|].
        intros k g Hg. rewrite (reseq_nth _ _ _ _ Hg). lia.
      * exact Hrest.
Qed.

Lemma hop_loop_seq_step (header_size mtu : Z) (fragments new : list Fragment) :
  seq_bounded fragments ->
  hop_loop header_size mtu [] fragments = Ok new ->
  seq_bounded new.
Proof.
  intros Hfrs Hrun.
  apply (hop_loop_seq_bounded _ _ _ [] 0%nat new Hrun).
  - simpl. lia.
  - intros i f Hf. destruct i; discriminate.
  - intros j f Hf. exact (Hfrs j f Hf).
Qed.

(** X6.  Sequence numbers of an accepted simulation: the first hop is
    numbered 1, 2, ..., n in order; in every hop each fragment carries a
    number between 1 and its position in the hop's list, and the fragments
    made by splitting carry exactly their position, so a hop at which no
    held fragment fits is numbered 1, 2, ..., n too. *)
Theorem sequence_numbers (clock : Clock) (packet_size header_size : Z)
    (mtu_path : list Z) (st : App) :
  valid_inputs packet_size header_size mtu_path ->
  exists r,
    current_results
      (snd (simulate_fragmentation clock
              (entries_of packet_size header_size mtu_path) st))
    = Some r
    /\ (forall hd i f,
           nth_error (hops r) 0 = Some hd ->
           nth_error (hop_fragments hd) i = Some f ->
           seq_num f = Z.of_nat i + 1)
    /\ (forall hd i f,
           In hd (hops r) ->
           nth_error (hop_fragments hd) i = Some f ->
           1 <= seq_num f <= Z.of_nat i + 1)
    /\ (forall k held hd i f,
           nth_error (initial_fragments clock packet_size header_size
                        :: map hop_fragments (hops r)) k = Some held ->
           nth_error (hops r) k = Some hd ->
           Forall (fun g => ~ fits header_size (hop_mtu hd) g) held ->
           nth_error (hop_fragments hd) i = Some f ->
           seq_num f = Z.of_nat i + 1).
Proof.
  intros Hvalid.
  destruct (simulation_valid_hops clock _ _ _ st Hvalid)
    as [r [Hr [Hlen Hhops]]].
  exists r. split; [assumption|].
  assert (Hsplit : forall mtu held new,
             hop_loop header_size mtu [] held = Ok new ->
             Forall (fun g => ~ fits header_size mtu g) held ->
             forall acc new',
               hop_loop header_size mtu acc held = Ok new' ->
               forall i f, nth_error new' i = Some f ->
                           (List.length acc <= i)%nat ->
                           seq_num f = Z.of_nat i + 1).
  { intros mtu held new _ Hnone. clear - Hnone.
    induction held as [|g rest IH]; intros acc new' Hrun i f Hf Hi;
      simpl in Hrun.
    - injection Hrun as <-.
      assert (i < List.length acc)%nat by (apply nth_error_Some; congruence).
      lia.
    - inversion Hnone as [|? ? Hg Hrest]; subst. unfold fits in Hg.
      destruct (Z.leb_spec (data_len g + header_size) mtu); [lia|].
      destruct (fragment_packet (data_len g) (offset g * 8) header_size mtu
                  (frag_id g)) as [sub| |] eqn:Hsub; try discriminate.
      rewrite renumber_reseq in Hrun.
      destruct (Nat.lt_ge_cases i (List.length (acc ++ reseq (List.length acc) sub)))
        as [Hlt|Hge].
      + apply hop_loop_ok in Hrun. destruct Hrun as [parts [-> _]].
        rewrite nth_error_app1 in Hf by assumption.
        rewrite nth_error_app2 in Hf by assumption.
        rewrite (reseq_nth _ _ _ _ Hf). lia.
      + exact (IH Hrest _ _ Hrun i f Hf Hge). }
  split; [|split].
  - intros hd i f Hhd Hf.
    destruct (Hhops 0%nat hd Hhd) as [_ [_ [_ Hstep]]].
    specialize (Hstep _ eq_refl). unfold initial_fragments in Hstep.
    cbn [hop_loop data_len] in Hstep.
    destruct (packet_size - header_size + header_size <=? hop_mtu hd).
    + injection Hstep as Hnew. rewrite <- Hnew in Hf.
      destruct i as [|i]; [|destruct i; discriminate].
      simpl in Hf. injection Hf as <-. reflexivity.
    + cbn [offset frag_id] in Hstep.
      destruct (fragment_packet (packet_size - header_size) (0 * 8)
                  header_size (hop_mtu hd) (now_ms clock mod 65536))
        as [sub| |]; try discriminate.
      injection Hstep as Hnew. rewrite <- Hnew in Hf.
      rewrite renumber_reseq in Hf. simpl in Hf.
      rewrite (reseq_nth _ _ _ _ Hf). lia.
  - intros hd i f Hin Hf.
    apply In_nth_error in Hin. destruct Hin as [k Hk].
    apply (recorded_hops_induction seq_bounded header_size
             (initial_fragments clock packet_size header_size) (hops r))
      with (i := k) (hd := hd); try assumption.
    + intros j g Hg. destruct j as [|j]; [|destruct j; discriminate].
      simpl in Hg. injection Hg as <-. simpl. lia.
    + intros mtu frs new Hfrs Hhop. exact (hop_loop_seq_step _ _ _ _ Hfrs Hhop).
    + intros j hd' held Hj Hheld.
      destruct (Hhops j hd' Hj) as [_ [_ [_ Hstep]]]. exact (Hstep _ Hheld).
  - intros k held hd i f Hheld Hhd Hnone Hf.
    destruct (Hhops k hd Hhd) as [_ [_ [_ Hstep]]].
    specialize (Hstep held Hheld).
    apply (Hsplit _ _ _ Hstep Hnone [] _ Hstep i f Hf). simpl. lia.
Qed.

(** X6, at the packet of 1500 bytes over the MTUs 576 and 400. *)
Lemma sequence_numbers_witness :
  exists r,
    current_results
      (snd (simulate_fragmentation clock0
              (entries_of 1500 20 [576; 400]) App_init))
    = Some r.
Proof.
  destruct (sequence_numbers clock0 1500 20 [576; 400] App_init) as [r [Hr _]].
  - apply validate_ok_iff. vm_compute. reflexivity.
  - exists r. exact Hr.
Defined.

(** ** The visualisation *)

Lemma hop_table_rows_nth (header_size len : Z) (fragments : list Fragment) :
  forall idx i f,
    nth_error fragments i = Some f ->
    nth_error (hop_table_rows header_size len idx fragments) i
    = Some (mkRow (seq_num f) (frag_id f) (data_len f + header_size)
              (data_len f) (offset f * 8) (offset f)
              (idx + Z.of_nat i <? len - 1)).
Proof.
  induction fragments as [|x rest IH]; intros idx i f Hf.
  - destruct i; discriminate.
  - destruct i as [|i]; simpl in Hf |- *.
    + injection Hf as <-. rewrite Z.add_0_r. reflexivity.
    + rewrite (IH (idx + 1) i f Hf). do 3 f_equal. lia.
Qed.

Lemma hop_table_rows_length (header_size len : Z) (fragments : list Fragment) :
  forall idx,
    List.length (hop_table_rows header_size len idx fragments)
    = List.length fragments.
Proof.
  induction fragments as [|x rest IH]; intros idx; simpl; [|rewrite IH];
    reflexivity.
Qed.

(** X7.  What a hop table shows: [create_hop_table] adds one table to
    the visualisation and changes nothing else; the table has one row per
    fragment, in order, with the total size the data plus the header, the
    byte offset eight times the unit offset, and the More-Fragments flag
    set on every row but the last; an empty list gives a table without
    rows. *)
Theorem hop_table_shows_fragments (hop mtu header_size packet_id : Z)
    (fragments : list Fragment) (st : App) :
  exists rows,
    create_hop_table hop mtu fragments header_size packet_id st
    = (Ok tt,
       mkApp (current_results st)
         (viz_scroll st ++ [HopTable hop mtu (List.length fragments) rows])
         (export_btn_normal st) (dialogs st))
    /\ List.length rows = List.length fragments
    /\ forall i f,
        nth_error fragments i = Some f ->
        nth_error rows i
        = Some (mkRow (seq_num f) (frag_id f) (data_len f + header_size)
                  (data_len f) (offset f * 8) (offset f)
                  (S i <? List.length fragments)%nat).
Proof.
  eexists. split; [reflexivity|]. split; [apply hop_table_rows_length|].
  intros i f Hf. rewrite (hop_table_rows_nth _ _ _ 0 i f Hf). do 2 f_equal.
  destruct (Nat.ltb_spec (S i) (List.length fragments));
    destruct (Z.ltb_spec (0 + Z.of_nat i)
                (Z.of_nat (List.length fragments) - 1)); (reflexivity || lia).
Qed.

Lemma redraw_hops_run (r : Results) (hs : list HopData) :
  forall st,
    redraw_hops r hs st
    = (Ok tt,
       mkApp (current_results st)
         (viz_scroll st ++ map (table_of (res_header_size r)) hs)
         (export_btn_normal st) (dialogs st)).
Proof.
  induction hs as [|hop rest IH]; intros st.
  - simpl. unfold ret. rewrite app_nil_r. destruct st; reflexivity.
  - cbn [redraw_hops]. unfold bind at 1.
    unfold create_hop_table, pack, modify. rewrite IH.
    cbn [current_results viz_scroll export_btn_normal dialogs map].
    rewrite <- app_assoc. reflexivity.
Qed.

Lemma refresh_ui_run (st : App) :
  refresh_ui st
  = (Ok tt,
     match current_results st with
     | Some r =>
         mkApp (Some r)
           (map (table_of (res_header_size r)) (hops r) ++ [Footer]) true
           (dialogs st)
     | None => mkApp None [WelcomeMessage; Footer] false (dialogs st)
     end).
Proof.
  unfold refresh_ui. unfold bind at 1. unfold modify.
  cbn [current_results].
  destruct (current_results st) as [r|] eqn:Hr; [|reflexivity].
  unfold bind at 1. unfold clear_visualization_area, modify.
  unfold bind at 1. rewrite redraw_hops_run.
  unfold bind at 1. unfold create_footer, pack, modify.
  unfold export_btn_configure, modify. reflexivity.
Qed.

(** X8.  Redrawing: [refresh_ui] always returns, keeps the results and
    the dialogs, and doing it twice is doing it once; after an accepted
    simulation it draws again exactly what the simulation drew, so the
    results hold everything the tables show, and leaves the export
    enabled. *)
Theorem refresh_redraws_simulation (clock : Clock)
    (packet_size header_size : Z) (mtu_path : list Z) (st : App) :
  (fst (refresh_ui st) = Ok tt
   /\ current_results (snd (refresh_ui st)) = current_results st
   /\ dialogs (snd (refresh_ui st)) = dialogs st
   /\ refresh_ui (snd (refresh_ui st)) = refresh_ui st)
  /\ (valid_inputs packet_size header_size mtu_path ->
      let drawn :=
        snd (simulate_fragmentation clock
               (entries_of packet_size header_size mtu_path) st)
      in
      refresh_ui drawn = (Ok tt, drawn)).
Proof.
  split.
  - rewrite !refresh_ui_run. cbn [fst snd].
    destruct (current_results st) as [r|]; repeat split; reflexivity.
  - intros Hvalid drawn. subst drawn.
    destruct (simulation_valid clock _ _ _ st Hvalid)
      as [ls [last [_ [_ [_ ->]]]]].
    cbn [snd]. rewrite refresh_ui_run.
    cbn [current_results dialogs results_after res_header_size hops].
    rewrite <- hop_tables_map. reflexivity.
Qed.

(** X8, at the packet of 1500 bytes over the MTUs 576 and 400. *)
Lemma refresh_redraws_simulation_witness :
  refresh_ui (snd (simulate_fragmentation clock0
                     (entries_of 1500 20 [576; 400]) App_init))
  = (Ok tt, snd (simulate_fragmentation clock0
                   (entries_of 1500 20 [576; 400]) App_init)).
Proof.
  apply (proj2 (refresh_redraws_simulation clock0 1500 20 [576; 400] App_init)).
  apply validate_ok_iff. vm_compute. reflexivity.
Defined.

(** X9.  An accepted simulation replaces the view: whatever results and
    widgets were there, afterwards the results are those of this run, the
    visualisation holds one table per hop in order and then the footer,
    the export is enabled and no dialog was shown; so the outcome does not
    depend on what the application held before. *)
Theorem accepted_run_replaces_view (clock : Clock)
    (packet_size header_size : Z) (mtu_path : list Z) (st : App) :
  valid_inputs packet_size header_size mtu_path ->
  exists r,
    simulate_fragmentation clock
      (entries_of packet_size header_size mtu_path) st
    = (Ok tt,
       mkApp (Some r) (map (table_of header_size) (hops r) ++ [Footer]) true
         (dialogs st))
    /\ List.length (hops r) = List.length mtu_path
    /\ forall other,
        current_results
          (snd (simulate_fragmentation clock
                  (entries_of packet_size header_size mtu_path)
                  other)) = Some r
        /\ viz_scroll
             (snd (simulate_fragmentation clock
                     (entries_of packet_size header_size mtu_path) other))
           = map (table_of header_size) (hops r) ++ [Footer].
Proof.
  intros Hvalid.
  destruct (simulation_valid clock _ _ _ st Hvalid)
    as [ls [last [Hrun [Hlen [_ Heq]]]]].
  exists (results_after clock packet_size header_size mtu_path ls).
  cbn [results_after hops]. rewrite <- hop_tables_map.
  split; [exact Heq|]. split; [rewrite hop_records_length; lia|].
  intros other.
  destruct (simulation_valid clock _ _ _ other Hvalid)
    as [ls' [last' [Hrun' [_ [_ Heq']]]]].
  rewrite Hrun in Hrun'. injection Hrun' as <- <-.
  rewrite Heq'. split; reflexivity.
Qed.

(** X9, at the packet of 1500 bytes over the MTUs 576 and 400. *)
Lemma accepted_run_replaces_view_witness :
  exists r,
    simulate_fragmentation clock0 (entries_of 1500 20 [576; 400]) App_init
    = (Ok tt,
       mkApp (Some r) (map (table_of 20) (hops r) ++ [Footer]) true [])
    /\ List.length (hops r) = 2%nat.
Proof.
  destruct (accepted_run_replaces_view clock0 1500 20 [576; 400] App_init)
    as [r [Hr [Hlen _]]].
  - apply validate_ok_iff. vm_compute. reflexivity.
  - exists r. split; [exact Hr|exact Hlen].
Defined.

(** X10.  A refused form changes nothing but the dialogs: the method
    returns, the results, the visualisation and the export button are as
    before, and one dialog titled Validation Error is added, whose text is
    the prefixed diagnostic [e] with [rejects entries e]: what [int] says
    of the first entry or piece that is no integer, or that the MTU path
    is empty when the MTU entry is blank (whatever the sizes read), or the
    validator's diagnostic of the first rule violated. *)
Theorem rejected_input_keeps_state (clock : Clock) (entries : Entries)
    (st : App) :
  ~ accepted entries ->
  exists e,
    rejects entries e
    /\ simulate_fragmentation clock entries st
       = (Ok tt,
          mkApp (current_results st) (viz_scroll st) (export_btn_normal st)
            (dialogs st
               ++ [mkDialog "Validation Error"
                     ("Input Validation Error:" ++ newline ++ newline
                        ++ message e)])).
Proof.
  intros Hrefused.
  destruct (validate_inputs_cases entries st)
    as [[ps [hs [path [Heq [Hvalid _]]]]]|[e [Hrej Hraise]]].
  - exfalso. apply Hrefused. exists ps, hs, path. split; assumption.
  - exists e. split; [exact Hrej|].
    exact (simulate_fragmentation_rejected _ _ _ _ Hraise).
Qed.

Lemma rejects_blank_inv (packet_size header_size : Z) (e : ValueError) :
  rejects (mkEntries (IntOk packet_size) (IntOk header_size) MtuBlank) e ->
  e = MtuEntryBlank.
Proof.
  intros Hrej.
  remember (mkEntries (IntOk packet_size) (IntOk header_size) MtuBlank)
    as entries eqn:Heq.
  destruct Hrej as [text header mtus|n text mtus|ps hs
                    |ps hs first rest before text after Hpieces
                    |ps hs path rule e Hne Hfirst Hrule Hraise];
    try discriminate; [reflexivity|].
  exfalso. unfold entries_of in Heq. destruct path; [congruence|discriminate].
Qed.

(** X10, at the form with packet size 10, header size 20 and a blank MTU
    entry: the dialog says that the MTU path is empty, not that the packet
    is too small. *)
Lemma rejected_input_keeps_state_witness :
  simulate_fragmentation clock0 (mkEntries (IntOk 10) (IntOk 20) MtuBlank)
    App_init
  = (Ok tt,
     mkApp None [WelcomeMessage; Footer] false
       [mkDialog "Validation Error"
          ("Input Validation Error:" ++ newline ++ newline
             ++ "MTU path cannot be empty")]).
Proof.
  destruct (rejected_input_keeps_state clock0
              (mkEntries (IntOk 10) (IntOk 20) MtuBlank) App_init)
    as [e [Hrej Hrun]].
  - intros [ps [hs [path [Heq [_ [_ [_ [Hne _]]]]]]]].
    unfold entries_of in Heq. destruct path; [congruence|discriminate].
  - rewrite Hrun, (rejects_blank_inv _ _ _ Hrej). vm_compute. reflexivity.
Defined.

(** ** Reset and export *)

Lemma reset_inputs_run (st : App) :
  reset_inputs st
  = (Ok tt, mkApp None [WelcomeMessage; Footer] false (dialogs st)).
Proof. reflexivity. Qed.

(** X11.  After [reset_inputs], whatever was simulated before, nothing
    can be exported: without results [export_to_csv] only warns, before it
    asks for a file, so whatever file name and file system it would have
    met; and an accepted simulation run after a reset gives the results
    and the view it gives on the freshly started application. *)
Theorem reset_forgets_results (clock : Clock) (packet_size header_size : Z)
    (mtu_path : list Z) (st : App) (filename generated : string)
    (opened : OpenResult) :
  let cleared := snd (reset_inputs st) in
  export_to_csv filename generated opened cleared
  = NoDataWarning
      (mkDialog "No Data" "Please run a simulation first before exporting.")
  /\ (valid_inputs packet_size header_size mtu_path ->
      let again :=
        snd (simulate_fragmentation clock
               (entries_of packet_size header_size mtu_path)
               cleared) in
      let fresh :=
        snd (simulate_fragmentation clock
               (entries_of packet_size header_size mtu_path)
               App_init) in
      current_results again = current_results fresh
      /\ viz_scroll again = viz_scroll fresh
      /\ export_btn_normal again = export_btn_normal fresh
      /\ dialogs again = dialogs st).
Proof.
  intros cleared. subst cleared. rewrite reset_inputs_run. cbn [snd].
  split; [reflexivity|].
  intros Hvalid.
  destruct (simulation_valid clock _ _ _
              (mkApp None [WelcomeMessage; Footer] false (dialogs st)) Hvalid)
    as [ls [last [Hrun [_ [_ ->]]]]].
  destruct (simulation_valid clock _ _ _ App_init Hvalid)
    as [ls' [last' [Hrun' [_ [_ ->]]]]].
  rewrite Hrun in Hrun'. injection Hrun' as <- <-.
  repeat split.
Qed.

(** X11, after the packet of 1500 bytes over the MTUs 576 and 400. *)
Lemma reset_forgets_results_witness :
  export_to_csv "out.csv" "2026-01-16 00:00:00" Opened
    (snd (reset_inputs
            (snd (simulate_fragmentation clock0
                    (entries_of 1500 20 [576; 400]) App_init))))
  = NoDataWarning
      (mkDialog "No Data" "Please run a simulation first before exporting.")
  /\ dialogs
       (snd (simulate_fragmentation clock0 (entries_of 1500 20 [576; 400])
               (snd (reset_inputs
                       (snd (simulate_fragmentation clock0
                               (entries_of 1500 20 [576; 400])
                               App_init))))))
     = dialogs (snd (simulate_fragmentation clock0
                       (entries_of 1500 20 [576; 400]) App_init)).
Proof.
  destruct (reset_forgets_results clock0 1500 20 [576; 400]
              (snd (simulate_fragmentation clock0
                      (entries_of 1500 20 [576; 400]) App_init))
              "out.csv" "2026-01-16 00:00:00" Opened) as [Hexport Hagain].
  split; [exact Hexport|].
  apply Hagain. apply validate_ok_iff. vm_compute. reflexivity.
Defined.

Lemma last_item_some (A : Type) (l : list A) :
  l <> [] -> exists x, last_item l = Some x /\ In x l.
Proof.
  induction l as [|a l IH]; intros Hne; [congruence|].
  destruct l as [|b l'].
  - exists a. split; [reflexivity|left; reflexivity].
  - destruct IH as [x [Hx Hin]]; [discriminate|].
    exists x. split; [exact Hx|right; exact Hin].
Qed.

Lemma total_overhead_fold (header_size : Z) (hs : list HopData) :
  forall acc,
    fold_left
      (fun a hop => a + Z.of_nat (List.length (hop_fragments hop)) * header_size)
      hs acc
    = acc
      + header_size
        * Z.of_nat (List.length (List.concat (map hop_fragments hs))).
Proof.
  induction hs as [|hop rest IH]; intros acc; simpl.
  - lia.
  - rewrite IH, length_app. lia.
Qed.

Lemma total_overhead_eq (r : Results) :
  total_overhead r = res_header_size r * fragments_recorded r.
Proof.
  unfold total_overhead, fragments_recorded.
  rewrite total_overhead_fold. lia.
Qed.

Lemma csv_fragment_rows_cells (header_size len : Z) (fragments : list Fragment) :
  forall idx,
    csv_fragment_rows header_size len idx fragments
    = map row_cells (hop_table_rows header_size len idx fragments).
Proof.
  induction fragments as [|f rest IH]; intros idx; simpl; [reflexivity|].
  rewrite IH. unfold row_cells at 1. cbn.
  destruct (idx <? len - 1); reflexivity.
Qed.

(** What redrawing gives is the state itself: the view shows exactly
    the results held, or the welcome when there are none, and the export
    button is enabled exactly when there are results. *)
Lemma refresh_fixed_iff (st : App) :
  snd (refresh_ui st) = st
  <-> match current_results st with
      | Some r =>
          viz_scroll st
          = map (table_of (res_header_size r)) (hops r) ++ [Footer]
          /\ export_btn_normal st = true
      | None =>
          viz_scroll st = [WelcomeMessage; Footer]
          /\ export_btn_normal st = false
      end.
Proof.
  rewrite refresh_ui_run. cbn [snd].
  destruct st as [[r|] vz ex dl]; cbn [current_results viz_scroll
                                       export_btn_normal dialogs]; split.
  - intros H. injection H as <- <-. split; reflexivity.
  - intros [-> ->]. reflexivity.
  - intros H. injection H as <- <-. split; reflexivity.
  - intros [-> ->]. reflexivity.
Qed.

(** The invariant of the reachable states. *)
Lemma reachable_invariant (st : App) :
  reachable st ->
  snd (refresh_ui st) = st
  /\ forall r,
      current_results st = Some r ->
      hops r <> [] /\ List.length (hops r) = List.length (res_mtu_path r).
Proof.
  induction 1 as [|st clock entries _ [IHview IHhops]
                  |st _ _|st _ [IHview IHhops]].
  - split; [reflexivity|]. intros r Hr. discriminate.
  - destruct (validate_inputs_cases entries st)
      as [[ps [hs [path [-> [Hvalid _]]]]]|[e [_ Hraise]]].
    + destruct (simulation_valid clock _ _ _ st Hvalid)
        as [ls [last [_ [Hlen [_ ->]]]]].
      cbn [snd]. split.
      * rewrite refresh_ui_run.
        cbn [snd current_results dialogs results_after res_header_size hops].
        rewrite <- hop_tables_map. reflexivity.
      * intros r Hr. cbn [current_results] in Hr. injection Hr as <-.
        cbn [results_after hops res_mtu_path].
        rewrite hop_records_length by lia. split; [|exact Hlen].
        destruct Hvalid as [_ [_ [_ [Hne _]]]].
        destruct path as [|m path]; [congruence|].
        destruct ls as [|l ls]; [discriminate|]. discriminate.
    + rewrite (simulate_fragmentation_rejected _ _ _ _ Hraise). cbn [snd].
      split; [|exact IHhops].
      apply refresh_fixed_iff. apply refresh_fixed_iff in IHview.
      exact IHview.
  - rewrite reset_inputs_run. split; [reflexivity|]. intros r Hr. discriminate.
  - split.
    + rewrite !refresh_ui_run. cbn [snd].
      destruct (current_results st); reflexivity.
    + intros r Hr. apply IHhops. rewrite refresh_ui_run in Hr.
      cbn [snd] in Hr. destruct (current_results st); [exact Hr|discriminate].
Qed.

(** X12.  In every state that the application reaches from its start by
    simulating (any entries, any clock), resetting and redrawing, the view
    is what a redraw of the results held would draw: the hop tables of the
    results and the footer, or the welcome and the footer when there are
    no results; the export button is enabled exactly when there are
    results; and results always hold one hop per MTU of their path, and at
    least one.  So an export that finds results, a file name and an open
    file never fails at [hops[-1]]: it succeeds. *)
Theorem reachable_states_consistent (st : App) :
  reachable st ->
  snd (refresh_ui st) = st
  /\ (export_btn_normal st = true <-> current_results st <> None)
  /\ (forall r,
         current_results st = Some r ->
         hops r <> []
         /\ List.length (hops r) = List.length (res_mtu_path r)
         /\ viz_scroll st
            = map (table_of (res_header_size r)) (hops r) ++ [Footer])
  /\ (current_results st = None -> viz_scroll st = [WelcomeMessage; Footer])
  /\ (forall filename generated,
         filename <> ""%string ->
         current_results st <> None ->
         exists rows dialog,
           export_to_csv filename generated Opened st
           = ExportSuccessful filename rows dialog).
Proof.
  intros Hreach. destruct (reachable_invariant st Hreach) as [Hview Hhops].
  pose proof (proj1 (refresh_fixed_iff st) Hview) as Hshape.
  split; [exact Hview|]. split; [|split; [|split]].
  - destruct (current_results st) as [r|]; destruct Hshape as [_ ->];
      split; congruence.
  - intros r Hr. rewrite Hr in Hshape.
    destruct (Hhops r Hr) as [Hne Hlen]. destruct Hshape as [Hviz _].
    repeat split; assumption.
  - intros Hnone. rewrite Hnone in Hshape. tauto.
  - intros filename generated Hname Hsome.
    unfold export_to_csv.
    destruct (current_results st) as [r|] eqn:Hr; [|congruence].
    apply String.eqb_neq in Hname. rewrite Hname.
    destruct (Hhops r eq_refl) as [Hne _].
    destruct (last_item_some _ _ Hne) as [final_hop [-> _]].
    eexists. eexists. reflexivity.
Qed.

(** X12, after the packet of 1500 bytes over the MTU 576, a form with a
    blank MTU entry and a redraw. *)
Lemma reachable_states_consistent_witness :
  exists rows dialog,
    export_to_csv "out.csv" "now" Opened
      (snd (refresh_ui
              (snd (simulate_fragmentation clock0
                      (mkEntries (IntOk 10) (IntOk 20) MtuBlank)
                      (snd (simulate_fragmentation clock0
                              (entries_of 1500 20 [576]) App_init))))))
    = ExportSuccessful "out.csv" rows dialog.
Proof.
  apply (proj2 (proj2 (proj2 (proj2
           (reachable_states_consistent _
              (reachable_refresh _
                 (reachable_simulate _ clock0
                    (mkEntries (IntOk 10) (IntOk 20) MtuBlank)
                    (reachable_simulate _ clock0 (entries_of 1500 20 [576])
                       reachable_init)))))))).
  - discriminate.
  - vm_compute. discriminate.
Defined.

Lemma csv_head_rows_fragments (generated : string) (r : Results)
    (hd : HopData) (row : Row) :
  In hd (hops r) ->
  In row (hop_table_rows (res_header_size r)
            (Z.of_nat (List.length (hop_fragments hd))) 0 (hop_fragments hd)) ->
  In (row_cells row) (csv_head_rows generated r).
Proof.
  intros Hhd Hrow. unfold csv_head_rows.
  apply in_or_app. right. apply in_or_app. left.
  apply in_flat_map. exists hd. split; [exact Hhd|].
  unfold csv_hop_rows. apply in_or_app. right. apply in_or_app. left.
  rewrite csv_fragment_rows_cells. apply in_map. exact Hrow.
Qed.

(** X13.  What is on the screen is in the file: when an export succeeds,
    every row of every hop table that a redraw of the results shows is a
    row of the report, with the same seven values (the More-Fragments
    column spelled 1 (More) or 0 (Last)). *)
Theorem export_rows_match_tables (filename generated : string) (st : App)
    (rows : list (list Cell)) (dialog : Dialog) :
  export_to_csv filename generated Opened st
  = ExportSuccessful filename rows dialog ->
  forall hop mtu count table_rows row,
    In (HopTable hop mtu count table_rows) (viz_scroll (snd (refresh_ui st))) ->
    In row table_rows ->
    In (row_cells row) rows.
Proof.
  intros Hexport hop mtu count table_rows row Htable Hrow.
  unfold export_to_csv in Hexport. rewrite refresh_ui_run in Htable.
  cbn [snd] in Htable.
  destruct (current_results st) as [r|]; [|discriminate].
  destruct (filename =? "")%string; [discriminate|].
  destruct (last_item (hops r)) as [final_hop|]; [|discriminate].
  assert (Hrows : rows
                  = csv_head_rows generated r ++ csv_summary_rows r final_hop)
    by congruence.
  rewrite Hrows. clear Hexport Hrows.
  cbn [viz_scroll] in Htable. apply in_app_or in Htable.
  destruct Htable as [Htable|[Hfooter|[]]]; [|discriminate].
  apply in_map_iff in Htable. destruct Htable as [hd [Heq Hhd]].
  unfold table_of in Heq. injection Heq as _ _ _ <-.
  apply in_or_app. left.
  exact (csv_head_rows_fragments generated r hd row Hhd Hrow).
Qed.

(** X13, on the results of the packet of 1500 bytes over the MTU 576:
    the last row of the table is in the report. *)
Lemma export_rows_match_tables_witness :
  exists rows dialog,
    export_to_csv "out.csv" "now" Opened
      (snd (simulate_fragmentation clock0 (entries_of 1500 20 [576]) App_init))
    = ExportSuccessful "out.csv" rows dialog
    /\ In [CInt 3; CInt 12345; CInt 396; CInt 376; CInt 1104; CInt 138;
           CStr "0 (Last)"] rows.
Proof.
  eexists. eexists. split; [vm_compute; reflexivity|].
  apply (export_rows_match_tables "out.csv" "now"
           (snd (simulate_fragmentation clock0
                   (entries_of 1500 20 [576]) App_init))
           _ _ eq_refl 1 576 3%nat
           [mkRow 1 12345 572 552 0 0 true;
            mkRow 2 12345 572 552 552 69 true;
            mkRow 3 12345 396 376 1104 138 false]
           (mkRow 3 12345 396 376 1104 138 false)).
  - vm_compute. left. reflexivity.
  - right. right. left. reflexivity.
Defined.

(** X14.  Export after an accepted simulation, with a file name and an
    open file, always succeeds, and the report states the run: the data
    size [packet_size - header_size], the number of hops (twice) equal to
    the length of the MTU path, the fragment count of the last hop, and a
    header overhead of [header_size] times the number of fragments over
    all hops. *)
Theorem export_after_simulation (clock : Clock) (packet_size header_size : Z)
    (mtu_path : list Z) (st : App) (filename generated : string) :
  valid_inputs packet_size header_size mtu_path ->
  filename <> ""%string ->
  exists r final_hop rows,
    current_results
      (snd (simulate_fragmentation clock
              (entries_of packet_size header_size mtu_path) st))
    = Some r
    /\ last_item (hops r) = Some final_hop
    /\ export_to_csv filename generated Opened
         (snd (simulate_fragmentation clock
                 (entries_of packet_size header_size mtu_path)
                 st))
       = ExportSuccessful filename rows
           (mkDialog "Export Successful"
              ("Fragmentation data exported successfully!" ++ newline
                 ++ newline ++ "File: " ++ filename))
    /\ In [CStr "Data Size:";
           CStr (str (packet_size - header_size) ++ " bytes")] rows
    /\ In [CStr "Number of Hops:"; CInt (Z.of_nat (List.length mtu_path))] rows
    /\ In [CStr "Total Hops:"; CInt (Z.of_nat (List.length mtu_path))] rows
    /\ In [CStr "Final Fragment Count:";
           CInt (Z.of_nat (List.length (hop_fragments final_hop)))] rows
    /\ In [CStr "Total Header Overhead:";
           CStr (str (header_size * fragments_recorded r) ++ " bytes")] rows.
Proof.
  intros Hvalid Hname.
  destruct (simulation_valid clock _ _ _ st Hvalid)
    as [ls [last [_ [Hlen [_ ->]]]]].
  set (r := results_after clock packet_size header_size mtu_path ls).
  assert (Hhops : List.length (hops r) = List.length mtu_path).
  { subst r. cbn [results_after hops]. rewrite hop_records_length; lia. }
  assert (Hne : hops r <> []).
  { intros E. rewrite E in Hhops. destruct Hvalid as [_ [_ [_ [Hpath _]]]].
    destruct mtu_path; [congruence|discriminate]. }
  destruct (last_item_some _ _ Hne) as [final_hop [Hlast _]].
  exists r, final_hop. eexists.
  cbn [snd current_results]. split; [reflexivity|]. split; [exact Hlast|].
  unfold export_to_csv. cbn [current_results].
  apply String.eqb_neq in Hname. rewrite Hname. fold r. rewrite Hlast.
  split; [reflexivity|].
  assert (Hoverhead : total_overhead r = header_size * fragments_recorded r)
    by (rewrite total_overhead_eq; reflexivity).
  unfold csv_summary_rows. rewrite Hoverhead, Hhops.
  split; [|split; [|split; [|split]]].
  - apply in_or_app. left. unfold csv_head_rows. apply in_or_app. left.
    cbn. do 11 right. left. reflexivity.
  - apply in_or_app. left. unfold csv_head_rows. apply in_or_app. left.
    rewrite Hhops. cbn. do 13 right. left. reflexivity.
  - apply in_or_app. right. right. left. reflexivity.
  - apply in_or_app. right. left. reflexivity.
  - apply in_or_app. right. right. right. left. reflexivity.
Qed.

(** X14, at the packet of 1500 bytes over the MTUs 576 and 400. *)
Lemma export_after_simulation_witness :
  exists r final_hop rows,
    current_results
      (snd (simulate_fragmentation clock0
              (entries_of 1500 20 [576; 400]) App_init))
    = Some r
    /\ last_item (hops r) = Some final_hop
    /\ export_to_csv "out.csv" "now" Opened
         (snd (simulate_fragmentation clock0
                 (entries_of 1500 20 [576; 400]) App_init))
       = ExportSuccessful "out.csv" rows
           (mkDialog "Export Successful"
              ("Fragmentation data exported successfully!" ++ newline
                 ++ newline ++ "File: " ++ "out.csv")).
Proof.
  destruct (export_after_simulation clock0 1500 20 [576; 400] App_init
              "out.csv" "now") as [r [final_hop [rows [Hr [Hlast [Hrun _]]]]]].
  - apply validate_ok_iff. vm_compute. reflexivity.
  - discriminate.
  - exists r, final_hop, rows. repeat split; assumption.
Defined.

(** ** More on the validator and the hops *)

Lemma validate_mtu_path_never_small (header_size : Z) (mtu_path : list Z) :
  header_size <= 60 ->
  forall i e,
    validate_mtu_path AppConfig_default header_size i mtu_path
    = raise_ValueError e ->
    forall hop mtu h, e <> MtuTooSmallAtHop hop mtu h.
Proof.
  intros Hh.
  induction mtu_path as [|m rest IH]; intros i e Hrun hop mtu h; simpl in Hrun.
  - discriminate.
  - destruct (Z.ltb_spec m 68); [injection Hrun as <-; discriminate|].
    destruct (Z.gtb_spec m 65535); [injection Hrun as <-; discriminate|].
    destruct (Z.ltb_spec m (header_size + 8)); [lia|].
    exact (IH _ _ Hrun hop mtu h).
Qed.

(** X15.  The third MTU check of the validator can never fail: by the
    time a hop's MTU is compared with header + 8 the header is known to be
    at most 60 and the MTU at least 68, so no call raises the diagnostic
    that the MTU is too small for the header; the accepted inputs are
    those of the other rules alone. *)
Theorem header_check_never_fails (packet_size header_size : Z)
    (mtu_path : list Z) :
  (forall e,
      validate_fragmentation_inputs packet_size header_size mtu_path
      = raise_ValueError e ->
      forall hop mtu h, e <> MtuTooSmallAtHop hop mtu h)
  /\ (validate_fragmentation_inputs packet_size header_size mtu_path = Ok tt
      <-> 20 <= packet_size <= 65535
          /\ 20 <= header_size <= 60 /\ header_size mod 4 = 0
          /\ header_size < packet_size
          /\ mtu_path <> []
          /\ Forall (fun mtu => 68 <= mtu <= 65535) mtu_path).
Proof.
  split.
  - intros e Hrun hop mtu h.
    unfold validate_fragmentation_inputs in Hrun.
    cbn [min_packet_size max_packet_size min_header_size max_header_size
         AppConfig_default] in Hrun.
    destruct (packet_size <? 20); [injection Hrun as <-; discriminate|].
    destruct (packet_size >? 65535); [injection Hrun as <-; discriminate|].
    destruct (header_size <? 20); [injection Hrun as <-; discriminate|].
    destruct (Z.gtb_spec header_size 60);
      [injection Hrun as <-; discriminate|].
    destruct (negb (header_size mod 4 =? 0));
      [injection Hrun as <-; discriminate|].
    destruct (packet_size - header_size <? 0);
      [injection Hrun as <-; discriminate|].
    destruct (packet_size - header_size =? 0);
      [injection Hrun as <-; discriminate|].
    destruct mtu_path as [|m rest]; [injection Hrun as <-; discriminate|].
    exact (validate_mtu_path_never_small header_size (m :: rest)
             ltac:(lia) 0 e Hrun hop mtu h).
  - rewrite validate_ok_iff. unfold valid_inputs. split.
    + intros [Hp [[Hh Hm] [Hd [Hne Hall]]]].
      repeat split; try lia; try assumption.
      eapply Forall_impl; [|exact Hall]. simpl. tauto.
    + intros [Hp [Hh [Hm [Hd [Hne Hall]]]]].
      repeat split; try lia; try assumption.
      eapply Forall_impl; [|exact Hall]. simpl. intros m Hr. lia.
Qed.

(** X15, at the header-only packet of 20 bytes. *)
Lemma header_check_never_fails_witness :
  PacketHeaderOnly <> MtuTooSmallAtHop 1 68 20.
Proof.
  apply (proj1 (header_check_never_fails 20 20 [68]) PacketHeaderOnly).
  vm_compute. reflexivity.
Defined.

(** X16.  A hop whose MTU is not smaller than the MTU of the hop before
    changes nothing: in an accepted simulation its list is the list of the
    hop before, sequence numbers included.  Fragments are split on the way
    and never put together again. *)
Theorem wider_hop_changes_nothing (clock : Clock) (packet_size header_size : Z)
    (mtu_path : list Z) (st : App) :
  valid_inputs packet_size header_size mtu_path ->
  exists r,
    current_results
      (snd (simulate_fragmentation clock
              (entries_of packet_size header_size mtu_path) st))
    = Some r
    /\ forall i before hd,
        nth_error (hops r) i = Some before ->
        nth_error (hops r) (S i) = Some hd ->
        hop_mtu before <= hop_mtu hd ->
        hop_fragments hd = hop_fragments before.
Proof.
  intros Hvalid.
  destruct (simulation_valid_hops clock _ _ _ st Hvalid)
    as [r [Hr [Hlen Hhops]]].
  exists r. split; [assumption|].
  intros i before hd Hbefore Hhd Hmtu.
  (* the list of the hop before fits the MTU of that hop *)
  destruct (Hhops i before Hbefore) as [_ [_ [_ Hstep0]]].
  destruct (held_list_exists _
              (initial_fragments clock packet_size header_size)
              (map hop_fragments (hops r)) i (hop_fragments before))
    as [held Hheld].
  { rewrite nth_error_map, Hbefore. reflexivity. }
  specialize (Hstep0 held Hheld). apply hop_loop_ok in Hstep0.
  destruct Hstep0 as [parts0 [Heq0 Hparts0]]. simpl in Heq0.
  assert (Hfit : Forall (fits header_size (hop_mtu hd)) (hop_fragments before)).
  { rewrite Heq0. clear Heq0 Hheld.
    induction Hparts0 as [|g part frs parts Hpart _ IH]; simpl; [constructor|].
    apply Forall_app. split; [|exact IH].
    destruct (hop_part_sizes _ _ _ _ Hpart) as [_ Hall].
    eapply Forall_impl; [|exact Hall]. unfold fits. simpl. intros f [Hf _].
    lia. }
  (* so the next hop passes every fragment on *)
  destruct (Hhops (S i) hd Hhd) as [_ [_ [_ Hstep]]].
  specialize (Hstep (hop_fragments before)).
  simpl in Hstep. rewrite nth_error_map, Hbefore in Hstep.
  specialize (Hstep eq_refl). apply hop_loop_ok in Hstep.
  destruct Hstep as [parts [Heq Hparts]]. simpl in Heq.
  rewrite Heq. exact (hop_parts_all_fit _ _ _ _ Hparts Hfit).
Qed.

(** X16, at the packet of 1500 bytes over the MTUs 576 and 1500. *)
Lemma wider_hop_changes_nothing_witness :
  exists r,
    current_results
      (snd (simulate_fragmentation clock0
              (entries_of 1500 20 [576; 1500]) App_init))
    = Some r.
Proof.
  destruct (wider_hop_changes_nothing clock0 1500 20 [576; 1500] App_init)
    as [r [Hr _]].
  - apply validate_ok_iff. vm_compute. reflexivity.
  - exists r. exact Hr.
Defined.

Lemma reseq_chunks (fragment_id max_data : Z) (sub : list Fragment) :
  forall n current_offset remaining,
    chunks fragment_id max_data current_offset (Z.of_nat n + 1) remaining sub ->
    reseq n sub = sub.
Proof.
  induction sub as [|f tl IH]; intros n co rem Hch; [reflexivity|].
  destruct Hch as [_ [-> [_ Htl]]]. simpl. f_equal.
  apply (IH (S n) (co + Z.min rem max_data) (rem - Z.min rem max_data)).
  rewrite Nat2Z.inj_succ.
  replace (Z.succ (Z.of_nat n) + 1) with (Z.of_nat n + 1 + 1) by lia.
  exact Htl.
Qed.

(** X17.  The first hop of an accepted simulation is the fragmenter's
    own answer: a packet no larger than the first MTU is recorded as the
    single initial fragment, and otherwise the recorded list is exactly
    the list that [fragment_packet] returns for the whole payload from
    offset 0. *)
Theorem first_hop_is_fragment_packet (clock : Clock)
    (packet_size header_size : Z) (mtu_path : list Z) (st : App) :
  valid_inputs packet_size header_size mtu_path ->
  exists r hd,
    current_results
      (snd (simulate_fragmentation clock
              (entries_of packet_size header_size mtu_path) st))
    = Some r
    /\ nth_error (hops r) 0 = Some hd
    /\ nth_error mtu_path 0 = Some (hop_mtu hd)
    /\ (packet_size <= hop_mtu hd ->
        hop_fragments hd
        = [mkFragment (now_ms clock mod 65536) (packet_size - header_size) 0 1])
    /\ (hop_mtu hd < packet_size ->
        fragment_packet (packet_size - header_size) 0 header_size (hop_mtu hd)
          (now_ms clock mod 65536)
        = Ok (hop_fragments hd)).
Proof.
  intros Hvalid.
  destruct (simulation_valid_hops clock _ _ _ st Hvalid)
    as [r [Hr [Hlen Hhops]]].
  assert (Hsome : exists hd, nth_error (hops r) 0 = Some hd).
  { destruct (hops r) as [|hd tl] eqn:E; [|exists hd; reflexivity].
    destruct Hvalid as [_ [_ [_ [Hpath _]]]].
    destruct mtu_path; [congruence|discriminate]. }
  destruct Hsome as [hd Hhd]. exists r, hd.
  split; [assumption|]. split; [assumption|].
  destruct (Hhops 0%nat hd Hhd) as [_ [Hmtu [_ Hstep]]].
  split; [assumption|].
  specialize (Hstep _ eq_refl). unfold initial_fragments in Hstep.
  cbn [hop_loop data_len offset frag_id seq_num] in Hstep.
  destruct (Z.leb_spec (packet_size - header_size + header_size) (hop_mtu hd))
    as [Hfit|Hfit].
  - split; [|lia]. intros _. simpl in Hstep. congruence.
  - split; [lia|]. intros _.
    destruct (fragment_packet (packet_size - header_size) (0 * 8) header_size
                (hop_mtu hd) (now_ms clock mod 65536)) as [sub| |] eqn:Hsub;
      try discriminate.
    simpl in Hstep. injection Hstep as Hnew.
    rewrite renumber_reseq in Hnew. simpl in Hnew.
    change (0 * 8) with 0 in Hsub. rewrite Hsub. f_equal.
    rewrite <- Hnew. symmetry.
    apply fragment_packet_ok in Hsub. destruct Hsub as [_ [_ Hch]].
    exact (reseq_chunks _ _ _ 0%nat _ _ Hch).
Qed.

(** X17, at the packet of 1500 bytes over the MTUs 576 and 400. *)
Lemma first_hop_is_fragment_packet_witness :
  exists r hd,
    current_results
      (snd (simulate_fragmentation clock0
              (entries_of 1500 20 [576; 400]) App_init))
    = Some r
    /\ nth_error (hops r) 0 = Some hd.
Proof.
  destruct (first_hop_is_fragment_packet clock0 1500 20 [576; 400] App_init)
    as [r [hd [Hr [Hhd _]]]].
  - apply validate_ok_iff. vm_compute. reflexivity.
  - exists r, hd. split; [exact Hr|exact Hhd].
Defined.

(** X18.  How a simulation ends: for every form, whether its entries
    read as integers or not, and for every state, the method returns; it
    shows a dialog exactly when the form is not accepted, and then a
    single one, titled Validation Error.  The handler of unexpected errors
    and the offset error of [fragment_packet] are never met: what the
    validator accepts, the fragmenter can cut. *)
Theorem simulation_ends_quietly (clock : Clock) (entries : Entries)
    (st : App) :
  let st' := snd (simulate_fragmentation clock entries st) in
  fst (simulate_fragmentation clock entries st) = Ok tt
  /\ ((accepted entries /\ dialogs st' = dialogs st)
      \/ (~ accepted entries
          /\ exists text,
              dialogs st'
              = dialogs st ++ [mkDialog "Validation Error" text])).
Proof.
  intros st'. subst st'. split; [apply simulate_fragmentation_returns|].
  destruct (validate_inputs_cases entries st)
    as [[ps [hs [path [Heq [Hvalid _]]]]]|[e [Hrej Hraise]]].
  - left. split; [exists ps, hs, path; split; assumption|]. subst entries.
    destruct (simulation_valid clock _ _ _ st Hvalid)
      as [ls [last [_ [_ [_ ->]]]]].
    reflexivity.
  - right. split; [exact (rejects_not_accepted _ _ Hrej)|].
    rewrite (simulate_fragmentation_rejected _ _ _ _ Hraise).
    eexists. reflexivity.
Qed.
